(** * AsyncEventIterator (packages/events/src/event-iterator.ts)

    A shallow embedding of the class [AsyncEventIterator<T>]: the iterator
    object, the [EventEmitter] it listens to and the promises it hands out are
    one explicit state, and every method is a function on that state. *)

From Stdlib Require Import List String Bool Arith Lia.
Import ListNotations.
Open Scope string_scope.
Open Scope list_scope.

Set Implicit Arguments.

(** ** Small list helpers *)

(** [arr.shift()] and [arr.push(x)] are written as pattern matching on the head
    and as [arr ++ [x]].  [updateAt f n l] is [l] with [f] applied to the
    element at index [n], and [l] itself when there is none. *)

Fixpoint updateAt {A : Type} (f : A -> A) (n : nat) (l : list A) : list A :=
  match l, n with
  | [], _ => []
  | x :: l', 0 => f x :: l'
  | x :: l', S n' => x :: updateAt f n' l'
  end.

Section Iterator.

(** [T] is the payload type of the class; [unknown] is TypeScript's top type,
    the type of a rejection reason, and [asUnknown] is the upcast of a
    [T | undefined] to it. *)
Variable T : Type.
Variable unknown : Type.
Variable asUnknown : option T -> unknown.

(** ** Data model *)

(** [type EventEntry<T> = {name: string; data?: T}] *)
Record EventEntry : Type := mkEntry {
  name : string;
  data : option T
}.

(** [type AsyncEventIteratorOptions]; every field is optional. *)
Record AsyncEventIteratorOptions : Type := mkOptions {
  doneEventName : option string;
  errorEventName : option string;
  listenNow : option bool
}.

(** [IteratorResult<EventEntry<T>>]: [value] is [undefined] in the result that
    [drain] hands to waiting promises. *)
Record IteratorResult : Type := mkResult {
  value : option EventEntry;
  done : bool
}.

(** A promise is pending, or settled once and for all. *)
Inductive PromiseState : Type :=
| Pending
| Fulfilled (r : IteratorResult)
| Rejected (err : unknown).

(** A handler registered on the emitter.  [Bridge id eventName] is the closure
    [(event) => this.pushEvent(event, eventName)] built by [createListener];
    [id] is the identity of the closure (two calls of [createListener] give two
    different functions).  [Foreign id] is somebody else's handler. *)
Inductive Listener : Type :=
| Bridge (id : nat) (eventName : string)
| Foreign (id : nat).

Definition listenerEqb (a b : Listener) : bool :=
  match a, b with
  | Bridge i n, Bridge j m => Nat.eqb i j && String.eqb n m
  | Foreign i, Foreign j => Nat.eqb i j
  | _, _ => false
  end.

Definition handlerEqb (a b : string * Listener) : bool :=
  String.eqb (fst a) (fst b) && listenerEqb (snd a) (snd b).

(** The state: the fields of the class in their order, the emitter's handler
    table (per registration, in registration order), the promises created so
    far (a promise is its index) and the number of closures created so far. *)
Record AsyncEventIterator : Type := mkIterator {
  eventEmitter : list (string * Listener);
  eventNames : list string;
  options : AsyncEventIteratorOptions;
  promiseQueue : list nat;
  eventQueue : list EventEntry;
  listening : bool;
  listenersAdded : bool;
  listeners : list (string * Listener);
  doneListener : option Listener;
  errorListener : option Listener;
  promises : list PromiseState;
  closures : nat
}.

Definition set_eventEmitter v (s : AsyncEventIterator) :=
  mkIterator v (eventNames s) (options s) (promiseQueue s) (eventQueue s)
    (listening s) (listenersAdded s) (listeners s) (doneListener s)
    (errorListener s) (promises s) (closures s).
Definition set_promiseQueue v (s : AsyncEventIterator) :=
  mkIterator (eventEmitter s) (eventNames s) (options s) v (eventQueue s)
    (listening s) (listenersAdded s) (listeners s) (doneListener s)
    (errorListener s) (promises s) (closures s).
Definition set_eventQueue v (s : AsyncEventIterator) :=
  mkIterator (eventEmitter s) (eventNames s) (options s) (promiseQueue s) v
    (listening s) (listenersAdded s) (listeners s) (doneListener s)
    (errorListener s) (promises s) (closures s).
Definition set_listening v (s : AsyncEventIterator) :=
  mkIterator (eventEmitter s) (eventNames s) (options s) (promiseQueue s)
    (eventQueue s) v (listenersAdded s) (listeners s) (doneListener s)
    (errorListener s) (promises s) (closures s).
Definition set_listenersAdded v (s : AsyncEventIterator) :=
  mkIterator (eventEmitter s) (eventNames s) (options s) (promiseQueue s)
    (eventQueue s) (listening s) v (listeners s) (doneListener s)
    (errorListener s) (promises s) (closures s).
Definition set_listeners v (s : AsyncEventIterator) :=
  mkIterator (eventEmitter s) (eventNames s) (options s) (promiseQueue s)
    (eventQueue s) (listening s) (listenersAdded s) v (doneListener s)
    (errorListener s) (promises s) (closures s).
Definition set_doneListener v (s : AsyncEventIterator) :=
  mkIterator (eventEmitter s) (eventNames s) (options s) (promiseQueue s)
    (eventQueue s) (listening s) (listenersAdded s) (listeners s) v
    (errorListener s) (promises s) (closures s).
Definition set_errorListener v (s : AsyncEventIterator) :=
  mkIterator (eventEmitter s) (eventNames s) (options s) (promiseQueue s)
    (eventQueue s) (listening s) (listenersAdded s) (listeners s)
    (doneListener s) v (promises s) (closures s).
Definition set_promises v (s : AsyncEventIterator) :=
  mkIterator (eventEmitter s) (eventNames s) (options s) (promiseQueue s)
    (eventQueue s) (listening s) (listenersAdded s) (listeners s)
    (doneListener s) (errorListener s) v (closures s).
Definition set_closures v (s : AsyncEventIterator) :=
  mkIterator (eventEmitter s) (eventNames s) (options s) (promiseQueue s)
    (eventQueue s) (listening s) (listenersAdded s) (listeners s)
    (doneListener s) (errorListener s) (promises s) v.

(** ** JavaScript primitives the class relies on *)

(** [a === b] for a string [a] and an optional string [b]. *)
Definition strictEq (a : string) (b : option string) : bool :=
  match b with
  | Some b' => String.eqb a b'
  | None => false
  end.

(** Truthiness of an optional string: [undefined] and [''] are falsy. *)
Definition truthy (o : option string) : option string :=
  match o with
  | Some EmptyString => None
  | Some n => Some n
  | None => None
  end.

(** [new Promise(...)]: a fresh pending promise; its handle is its index. *)
Definition newPromise (s : AsyncEventIterator) : AsyncEventIterator * nat :=
  (set_promises (promises s ++ [Pending]) s, List.length (promises s)).

(** Settling a promise: nothing happens when it is settled already. *)
Definition settle (v : PromiseState) (old : PromiseState) : PromiseState :=
  match old with
  | Pending => v
  | _ => old
  end.

Definition resolve (p : nat) (r : IteratorResult) (s : AsyncEventIterator) :=
  set_promises (updateAt (settle (Fulfilled r)) p (promises s)) s.

Definition reject (p : nat) (err : unknown) (s : AsyncEventIterator) :=
  set_promises (updateAt (settle (Rejected err)) p (promises s)) s.

(** [Promise.resolve(result)] and [Promise.reject(error)]. *)
Definition promiseResolve (r : IteratorResult) (s : AsyncEventIterator) :=
  (set_promises (promises s ++ [Fulfilled r]) s, List.length (promises s)).

Definition promiseReject (err : unknown) (s : AsyncEventIterator) :=
  (set_promises (promises s ++ [Rejected err]) s, List.length (promises s)).

(** [obj[key] = v] on an object used as a map: an existing key keeps its place
    and a new key goes last, which is the order [for ... in] visits the keys in
    (JavaScript visits keys that are array indices first; the loop of
    [removeEventListeners] removes the registration held at each key it
    visits). *)
Fixpoint assign (key : string) (v : Listener) (o : list (string * Listener)) :=
  match o with
  | [] => [(key, v)]
  | (k, w) :: o' =>
      if String.eqb k key then (k, v) :: o' else (k, w) :: assign key v o'
  end.

(** [delete obj[key]] *)
Fixpoint delete (key : string) (o : list (string * Listener)) :=
  match o with
  | [] => []
  | (k, w) :: o' => if String.eqb k key then o' else (k, w) :: delete key o'
  end.

(** [emitter.addListener(eventName, listener)]: appended, no check for
    duplicates. *)
Definition addListener (eventName : string) (listener : Listener)
    (s : AsyncEventIterator) :=
  set_eventEmitter (eventEmitter s ++ [(eventName, listener)]) s.

(** [emitter.removeListener(eventName, listener)]: removes at most one
    registration, the most recently added one. *)
Fixpoint removeLast (h : string * Listener) (em : list (string * Listener)) :=
  match em with
  | [] => []
  | h' :: em' =>
      if handlerEqb h' h && negb (existsb (handlerEqb h) em')
      then em'
      else h' :: removeLast h em'
  end.

Definition removeListener (eventName : string) (listener : Listener)
    (s : AsyncEventIterator) :=
  set_eventEmitter (removeLast (eventName, listener) (eventEmitter s)) s.

(** ** The methods of the class *)

(** [private pushEvent(event: T, eventName: string)] *)
Definition pushEvent (event : T) (eventName : string)
    (s : AsyncEventIterator) : AsyncEventIterator :=
  let entry := mkEntry eventName (Some event) in
  match promiseQueue s with
  | p :: rest =>
      let s := set_promiseQueue rest s in
      if strictEq eventName (errorEventName (options s)) then
        reject p (asUnknown (Some event)) s
      else
        resolve p
          (mkResult (Some entry) (strictEq eventName (doneEventName (options s))))
          s
  | [] => set_eventQueue (eventQueue s ++ [entry]) s
  end.

(** [private pullEvent()]: the executor of the new promise runs at once. *)
Definition pullEvent (s : AsyncEventIterator) : AsyncEventIterator * nat :=
  let (s, p) := newPromise s in
  match eventQueue s with
  | entry :: rest =>
      let s := set_eventQueue rest s in
      if strictEq (name entry) (errorEventName (options s)) then
        (reject p (asUnknown (data entry)) s, p)
      else
        (resolve p
           (mkResult (Some entry)
              (strictEq (name entry) (doneEventName (options s))))
           s, p)
  | [] => (set_promiseQueue (promiseQueue s ++ [p]) s, p)
  end.

(** [private createListener(eventName)] *)
Definition createListener (eventName : string) (s : AsyncEventIterator)
    : AsyncEventIterator * Listener :=
  (set_closures (S (closures s)) s, Bridge (closures s) eventName).

(** The body of the loop of [addEventListeners]. *)
Definition addNamedListener (s : AsyncEventIterator) (eventName : string) :=
  let (s, listener) := createListener eventName s in
  let s := addListener eventName listener s in
  set_listeners (assign eventName listener (listeners s)) s.

(** [private addEventListeners()] *)
Definition addEventListeners (s : AsyncEventIterator) : AsyncEventIterator :=
  let s :=
    fold_left addNamedListener (eventNames s) s in
  let s :=
    match truthy (doneEventName (options s)) with
    | Some n =>
        let (s, l) := createListener n s in
        let s := set_doneListener (Some l) s in
        addListener n l s
    | None => s
    end in
  match truthy (errorEventName (options s)) with
  | Some n =>
      let (s, l) := createListener n s in
      let s := set_errorListener (Some l) s in
      addListener n l s
  | None => s
  end.

(** The body of the loop of [removeEventListeners], at the key [fst kv] whose
    value is [snd kv]. *)
Definition removeNamedListener (s : AsyncEventIterator)
    (kv : string * Listener) :=
  let s := removeListener (fst kv) (snd kv) s in
  set_listeners (delete (fst kv) (listeners s)) s.

(** [private removeEventListeners()].  The [for ... in] loop visits the keys of
    [this.listeners]; the non-null assertions [doneEventName!] and
    [errorEventName!] are the names the handles were created with. *)
Definition removeEventListeners (s : AsyncEventIterator) : AsyncEventIterator :=
  let s :=
    fold_left removeNamedListener (listeners s) s in
  let s :=
    match doneListener s with
    | Some l =>
        let s :=
          match doneEventName (options s) with
          | Some n => removeListener n l s
          | None => s
          end in
        set_doneListener None s
    | None => s
    end in
  match errorListener s with
  | Some l =>
      let s :=
        match errorEventName (options s) with
        | Some n => removeListener n l s
        | None => s
        end in
      set_errorListener None s
  | None => s
  end.

(** [private drain()] *)
Definition drain (s : AsyncEventIterator) : AsyncEventIterator :=
  if listening s then
    let s := set_listening false s in
    let s := if listenersAdded s then removeEventListeners s else s in
    let s :=
      fold_left (fun s p => resolve p (mkResult None true) s)
        (promiseQueue s) s in
    let s := set_promiseQueue [] s in
    set_eventQueue [] s
  else s.

(** [return()]; [return] is a keyword of Rocq. *)
Definition return_ (s : AsyncEventIterator) : AsyncEventIterator * nat :=
  let s := drain s in
  let result :=
    mkResult
      (Some (mkEntry
               (match truthy (doneEventName (options s)) with
                | Some n => n
                | None => "done"
                end) None))
      true in
  promiseResolve result s.

(** [throw(error: unknown)] *)
Definition throw (error : unknown) (s : AsyncEventIterator)
    : AsyncEventIterator * nat :=
  let s := drain s in
  promiseReject error s.

(** [next()] *)
Definition next (s : AsyncEventIterator) : AsyncEventIterator * nat :=
  if negb (listening s) then return_ s
  else
    let s :=
      if negb (listenersAdded s)
      then set_listenersAdded true (addEventListeners s)
      else s in
    pullEvent s.

(** The default value of the constructor's third parameter. *)
Definition defaultOptions : AsyncEventIteratorOptions :=
  mkOptions (Some "done") (Some "error") None.

(** [constructor(eventEmitter, eventNames, options = {...})]: the default
    applies when the argument is absent ([None]). *)
Definition constructor (emitter : list (string * Listener))
    (names : list string) (opts : option AsyncEventIteratorOptions)
    : AsyncEventIterator :=
  let options :=
    match opts with
    | Some o => o
    | None => defaultOptions
    end in
  let s :=
    mkIterator emitter names options [] [] true false [] None None [] 0 in
  match listenNow options with
  | Some true => set_listenersAdded true (addEventListeners s)
  | _ => s
  end.

(** ** The emitter firing *)

(** What a registered handler does when the emitter calls it. *)
Definition invoke (event : T) (s : AsyncEventIterator) (l : Listener) :=
  match l with
  | Bridge _ eventName => pushEvent event eventName s
  | Foreign _ => s
  end.

(** [emitter.emit(eventName, event)]: the handlers registered for [eventName]
    at the time of the call run in registration order.  (Node throws from
    [emit('error')] when no handler is registered for it; the exception goes
    to the caller of [emit] and the iterator is not involved.) *)
Definition handlersFor (eventName : string) (em : list (string * Listener)) :=
  map snd (filter (fun h => String.eqb (fst h) eventName) em).

Definition emit (eventName : string) (event : T) (s : AsyncEventIterator) :=
  fold_left (invoke event) (handlersFor eventName (eventEmitter s)) s.

(** ** Traces of calls *)

(** What the outside world can do with the iterator: the emitter fires
    ([Emit]), one of the iterator's handlers is called directly ([Publish],
    that is [pushEvent]), or the consumer calls [next], [return] or [throw]. *)
Inductive Call : Type :=
| Publish (event : T) (eventName : string)
| Emit (eventName : string) (event : T)
| Next
| Return
| Throw (error : unknown).

(** One call: the new state and the promise handed back, if any. *)
Definition step (c : Call) (s : AsyncEventIterator)
    : AsyncEventIterator * list nat :=
  match c with
  | Publish event eventName => (pushEvent event eventName s, [])
  | Emit eventName event => (emit eventName event s, [])
  | Next => let (s', p) := next s in (s', [p])
  | Return => let (s', p) := return_ s in (s', [p])
  | Throw error => let (s', p) := throw error s in (s', [p])
  end.

(** A sequence of calls: the final state and the promises handed back, in
    order. *)
Fixpoint run (cs : list Call) (s : AsyncEventIterator)
    : AsyncEventIterator * list nat :=
  match cs with
  | [] => (s, [])
  | c :: cs' =>
      let (s1, ps) := step c s in
      let (s2, qs) := run cs' s1 in
      (s2, ps ++ qs)
  end.

(** The state of promise [p]; [None] when no such promise was created. *)
Definition promiseState (s : AsyncEventIterator) (p : nat) : option PromiseState :=
  nth_error (promises s) p.

(** ** Views of the state *)

(** What the rendezvous methods work on, what the listener methods work on,
    and what no method changes. *)
Definition rendezvousPart (s : AsyncEventIterator) :=
  (promiseQueue s, eventQueue s, promises s, listening s, listenersAdded s).

Definition listenerPart (s : AsyncEventIterator) :=
  (eventEmitter s, listeners s, doneListener s, errorListener s, closures s).

Definition config (s : AsyncEventIterator) := (eventNames s, options s).

(** The two queues are never both non-empty. *)
Definition rendezvous (s : AsyncEventIterator) : Prop :=
  eventQueue s = [] \/ promiseQueue s = [].

(** ** Rendezvous traces *)

(** A trace without drain: notifications reaching [pushEvent] and pulls. *)
Inductive Action : Type :=
| Notify (event : T) (eventName : string)
| Request.

Definition toCall (a : Action) : Call :=
  match a with
  | Notify event eventName => Publish event eventName
  | Request => Next
  end.

(** The entries published by a trace, in arrival order, and the number of its
    pulls. *)
Fixpoint published (acts : list Action) : list EventEntry :=
  match acts with
  | [] => []
  | Notify event eventName :: acts' =>
      mkEntry eventName (Some event) :: published acts'
  | Request :: acts' => published acts'
  end.

Fixpoint requests (acts : list Action) : nat :=
  match acts with
  | [] => 0
  | Notify _ _ :: acts' => requests acts'
  | Request :: acts' => S (requests acts')
  end.

(** How an entry settles the pull it is matched with: [pushEvent] and
    [pullEvent] both reject with the payload on the error event and resolve
    with the entry otherwise. *)
Definition outcomeOf (o : AsyncEventIteratorOptions) (entry : EventEntry)
    : PromiseState :=
  if strictEq (name entry) (errorEventName o) then
    Rejected (asUnknown (data entry))
  else
    Fulfilled (mkResult (Some entry) (strictEq (name entry) (doneEventName o))).

(** The options in force after construction. *)
Definition optionsOf (opts : option AsyncEventIteratorOptions) :=
  match opts with
  | Some o => o
  | None => defaultOptions
  end.

(** The state after [n] pulls and the publishes [pubs], with no drain. *)
Definition matched (o : AsyncEventIteratorOptions) (pubs : list EventEntry)
    (n : nat) (s : AsyncEventIterator) : Prop :=
  listening s = true /\ options s = o /\
  eventQueue s = skipn n pubs /\
  promiseQueue s = seq (List.length pubs) (n - List.length pubs) /\
  promises s =
    map (outcomeOf o) (firstn n pubs) ++ repeat Pending (n - List.length pubs).



(** ** The attached handlers *)

(** The handlers [addEventListeners] registers for the event names, the first
    closure being number [k]. *)
Fixpoint namedHandlers (k : nat) (names : list string)
    : list (string * Listener) :=
  match names with
  | [] => []
  | n :: names' => (n, Bridge k n) :: namedHandlers (S k) names'
  end.

(** The handler for the done or error event, if the name is set. *)
Definition sentinelHandler (k : nat) (o : option string)
    : list (string * Listener) :=
  match truthy o with
  | Some n => [(n, Bridge k n)]
  | None => []
  end.

(** The iterator is attached to an emitter that had the handlers [em0]
    before: its handlers follow [em0], and its handles are exactly those. *)
Definition attached (em0 : list (string * Listener)) (s : AsyncEventIterator)
    : Prop :=
  exists k,
    let m := k + List.length (eventNames s) in
    let dh := sentinelHandler m (doneEventName (options s)) in
    let eh := sentinelHandler (m + List.length dh) (errorEventName (options s)) in
    eventEmitter s = em0 ++ namedHandlers k (eventNames s) ++ dh ++ eh /\
    listeners s = namedHandlers k (eventNames s) /\
    doneListener s = option_map snd (hd_error dh) /\
    errorListener s = option_map snd (hd_error eh).

(** No handle is held. *)
Definition noHandles (s : AsyncEventIterator) : Prop :=
  listeners s = [] /\ doneListener s = None /\ errorListener s = None.

(** Every closure in [l] has a number of at least [k]. *)
Definition closuresFrom (k : nat) (l : list (string * Listener)) : Prop :=
  forall n id eventName, In (n, Bridge id eventName) l -> k <= id.

(** ** Invariants of the reachable states *)

(** The promises that are pending are exactly the waiting ones, each waits
    once, and nothing waits once the iterator has stopped listening. *)
Definition promisesOk (s : AsyncEventIterator) : Prop :=
  NoDup (promiseQueue s) /\
  (forall p, promiseState s p = Some Pending <-> In p (promiseQueue s)) /\
  (listening s = false -> promiseQueue s = []).

(** Where the handlers are, for an emitter that had the handlers [em0] when
    the iterator was constructed. *)
Definition listenersOk (em0 : list (string * Listener))
    (s : AsyncEventIterator) : Prop :=
  (listening s = false ->
   noHandles s /\ (NoDup (eventNames s) -> eventEmitter s = em0)) /\
  (listenersAdded s = false -> eventEmitter s = em0 /\ noHandles s) /\
  (listening s = true -> listenersAdded s = true ->
   NoDup (eventNames s) -> attached em0 s).

Definition wellFormed (em0 : list (string * Listener))
    (s : AsyncEventIterator) : Prop :=
  promisesOk s /\ listenersOk em0 s.


(** The result [return()] resolves with. *)
Definition returnResult (o : AsyncEventIteratorOptions) : IteratorResult :=
  mkResult
    (Some (mkEntry
             (match truthy (doneEventName o) with
              | Some n => n
              | None => "done"
              end) None))
    true.

(** The event names the closures among the handlers [hs] push with, in
    order; a foreign handler pushes nothing. *)
Fixpoint bridgeNames (hs : list Listener) : list string :=
  match hs with
  | [] => []
  | Bridge _ eventName :: hs' => eventName :: bridgeNames hs'
  | Foreign _ :: hs' => bridgeNames hs'
  end.

(** The emitter holds no closure of the iterator. *)
Definition foreignOnly (em : list (string * Listener)) : Prop :=
  bridgeNames (map snd em) = [].

(** ** Further notions used in the properties *)

(** The emitter firing several times in a row, each firing given as (event
    name, payload). *)
Definition emitAll (firings : list (string * T)) : list Call :=
  map (fun f => Emit (fst f) (snd f)) firings.

(** The handlers of the emitter that are not closures of the iterator, in
    registration order. *)
Definition isForeign (h : string * Listener) : bool :=
  match snd h with
  | Foreign _ => true
  | Bridge _ _ => false
  end.

Definition foreignHandlers (em : list (string * Listener))
    : list (string * Listener) :=
  filter isForeign em.

(** Every handle the iterator holds is a closure made by [createListener]. *)
Definition isBridge (l : Listener) : Prop :=
  exists id eventName, l = Bridge id eventName.

Definition ownHandles (s : AsyncEventIterator) : Prop :=
  (forall k l, In (k, l) (listeners s) -> isBridge l) /\
  (forall l, doneListener s = Some l -> isBridge l) /\
  (forall l, errorListener s = Some l -> isBridge l).


(** The number of closures [addEventListeners] creates. *)
Definition closuresOf (names : list string) (o : AsyncEventIteratorOptions)
    : nat :=
  List.length names +
  List.length (sentinelHandler 0 (doneEventName o)) +
  List.length (sentinelHandler 0 (errorEventName o)).

(** * Properties *)

(** ** Frame lemmas *)

Ltac fields :=
  cbn [eventEmitter eventNames options promiseQueue eventQueue listening
       listenersAdded listeners doneListener errorListener promises closures
       set_eventEmitter set_promiseQueue set_eventQueue set_listening
       set_listenersAdded set_listeners set_doneListener set_errorListener
       set_promises set_closures resolve reject fst snd].

Ltac parts H :=
  unfold rendezvousPart, listenerPart, config in H;
  first [injection H as ? ? ? ? ? | injection H as ? ?].

Lemma addNames_frame (ns : list string) (s : AsyncEventIterator) :
  let s' :=
    fold_left addNamedListener ns s in
  rendezvousPart s' = rendezvousPart s /\ config s' = config s /\
  doneListener s' = doneListener s /\ errorListener s' = errorListener s.
Proof.
  revert s; induction ns as [|n ns IH]; intros s; cbn [fold_left].
  - auto.
  - specialize (IH (addNamedListener s n)). cbn in IH. exact IH.
Qed.

Lemma addEventListeners_frame (s : AsyncEventIterator) :
  rendezvousPart (addEventListeners s) = rendezvousPart s /\
  config (addEventListeners s) = config s.
Proof.
  unfold addEventListeners.
  destruct (addNames_frame (eventNames s) s) as (R & C & _ & _).
  cbv zeta in R, C.
  set (s1 := fold_left _ (eventNames s) s) in *.
  assert (O : options s1 = options s) by (parts C; assumption).
  destruct (truthy (doneEventName (options s1))) as [d|];
    destruct (truthy (errorEventName (options _))) as [e|]; cbn;
    (split; [rewrite <- R | rewrite <- C]); reflexivity.
Qed.

Lemma removeNames_frame (ls : list (string * Listener)) (s : AsyncEventIterator) :
  let s' :=
    fold_left removeNamedListener ls s in
  rendezvousPart s' = rendezvousPart s /\ config s' = config s /\
  doneListener s' = doneListener s /\ errorListener s' = errorListener s /\
  closures s' = closures s.
Proof.
  revert s; induction ls as [|kv ls IH]; intros s; cbn [fold_left].
  - auto 6.
  - specialize (IH (removeNamedListener s kv)). cbn in IH. exact IH.
Qed.

Lemma removeEventListeners_frame (s : AsyncEventIterator) :
  rendezvousPart (removeEventListeners s) = rendezvousPart s /\
  config (removeEventListeners s) = config s /\
  closures (removeEventListeners s) = closures s.
Proof.
  unfold removeEventListeners.
  destruct (removeNames_frame (listeners s) s) as (R & C & _ & _ & K).
  cbv zeta in R, C, K.
  set (s1 := fold_left _ (listeners s) s) in *.
  destruct (doneListener s1) as [d|];
    [destruct (doneEventName (options s1)) as [dn|]|];
    cbn;
    (destruct (errorListener s1) as [e|];
     [destruct (errorEventName (options s1)) as [en|]|]);
    cbn; rewrite <- R, <- C, <- K; auto.
Qed.

Lemma resolveAll_frame (ps : list nat) (r : IteratorResult)
    (s : AsyncEventIterator) :
  let s' := fold_left (fun s p => resolve p r s) ps s in
  listenerPart s' = listenerPart s /\ config s' = config s /\
  promiseQueue s' = promiseQueue s /\ eventQueue s' = eventQueue s /\
  listening s' = listening s /\ listenersAdded s' = listenersAdded s.
Proof.
  revert s; induction ps as [|p ps IH]; intros s; cbn.
  - auto 7.
  - specialize (IH (resolve p r s)). cbn in IH. exact IH.
Qed.

Lemma pushEvent_frame (event : T) (eventName : string) (s : AsyncEventIterator) :
  listenerPart (pushEvent event eventName s) = listenerPart s /\
  config (pushEvent event eventName s) = config s /\
  listening (pushEvent event eventName s) = listening s /\
  listenersAdded (pushEvent event eventName s) = listenersAdded s.
Proof.
  unfold pushEvent.
  destruct (promiseQueue s) as [|p rest]; cbn; auto.
  destruct (strictEq eventName (errorEventName (options s))); cbn; auto.
Qed.

Lemma pullEvent_frame (s : AsyncEventIterator) :
  listenerPart (fst (pullEvent s)) = listenerPart s /\
  config (fst (pullEvent s)) = config s /\
  listening (fst (pullEvent s)) = listening s /\
  listenersAdded (fst (pullEvent s)) = listenersAdded s.
Proof.
  unfold pullEvent; cbn.
  destruct (eventQueue s) as [|entry rest]; cbn; auto.
  destruct (strictEq (name entry) (errorEventName (options s))); cbn; auto.
Qed.

(** ** The rendezvous invariant *)

Lemma pushEvent_rendezvous (event : T) (eventName : string)
    (s : AsyncEventIterator) :
  rendezvous s -> rendezvous (pushEvent event eventName s).
Proof.
  unfold rendezvous, pushEvent; intros [E|P].
  - destruct (promiseQueue s) as [|p rest] eqn:Q; [right; exact Q|].
    left. destruct (strictEq eventName (errorEventName _)); exact E.
  - rewrite P. right. exact P.
Qed.

Lemma pullEvent_rendezvous (s : AsyncEventIterator) :
  rendezvous s -> rendezvous (fst (pullEvent s)).
Proof.
  unfold rendezvous, pullEvent; cbn; intros [E|P].
  - rewrite E. left. exact E.
  - destruct (eventQueue s) as [|entry rest] eqn:Q; [left; exact Q|].
    right. destruct (strictEq (name entry) (errorEventName _)); exact P.
Qed.

Lemma drain_rendezvous (s : AsyncEventIterator) :
  rendezvous s -> rendezvous (drain s).
Proof.
  unfold drain; intros R.
  destruct (listening s); [left; reflexivity | exact R].
Qed.

Lemma emit_rendezvous (eventName : string) (event : T)
    (s : AsyncEventIterator) :
  rendezvous s -> rendezvous (emit eventName event s).
Proof.
  unfold emit. generalize (handlersFor eventName (eventEmitter s)).
  intros hs; revert s; induction hs as [|h hs IH]; intros s R; cbn.
  - exact R.
  - apply IH. destruct h; cbn; [apply pushEvent_rendezvous|]; exact R.
Qed.

Lemma addEventListeners_rendezvous (s : AsyncEventIterator) :
  rendezvous s -> rendezvous (addEventListeners s).
Proof.
  destruct (addEventListeners_frame s) as (R & _). parts R.
  unfold rendezvous. intros [E|P]; [left|right]; congruence.
Qed.

Lemma next_rendezvous (s : AsyncEventIterator) :
  rendezvous s -> rendezvous (fst (next s)).
Proof.
  unfold next; intros R.
  destruct (listening s); cbn.
  - apply pullEvent_rendezvous.
    destruct (listenersAdded s); cbn; [exact R|].
    apply (addEventListeners_rendezvous R).
  - apply (drain_rendezvous R).
Qed.

Lemma step_rendezvous (c : Call) (s : AsyncEventIterator) :
  rendezvous s -> rendezvous (fst (step c s)).
Proof.
  intros R; destruct c as [event n|n event| | |error]; cbn.
  - apply pushEvent_rendezvous, R.
  - apply emit_rendezvous, R.
  - generalize (next_rendezvous R). destruct (next s); auto.
  - apply (drain_rendezvous R).
  - apply (drain_rendezvous R).
Qed.

Lemma run_cons (c : Call) (cs : list Call) (s : AsyncEventIterator) :
  run (c :: cs) s =
  (fst (run cs (fst (step c s))), snd (step c s) ++ snd (run cs (fst (step c s)))).
Proof.
  cbn. destruct (step c s) as [s1 ps]. cbn.
  destruct (run cs s1); reflexivity.
Qed.


Lemma constructor_rendezvous (emitter : list (string * Listener))
    (names : list string) (opts : option AsyncEventIteratorOptions) :
  rendezvous (constructor emitter names opts).
Proof.
  unfold constructor.
  destruct (listenNow _) as [[|]|]; try (left; reflexivity).
  apply addEventListeners_rendezvous. left; reflexivity.
Qed.

(** ** First in, first out *)

Lemma updateAt_app_length {A : Type} (f : A -> A) (l1 l2 : list A) (x : A) :
  updateAt f (List.length l1) (l1 ++ x :: l2) = l1 ++ f x :: l2.
Proof.
  induction l1 as [|y l1 IH]; cbn; [reflexivity|].
  f_equal. exact IH.
Qed.

Lemma skipn_nth_error {A : Type} (l : list A) (n : nat) :
  n < List.length l ->
  exists x, nth_error l n = Some x /\ skipn n l = x :: skipn (S n) l /\
            firstn (S n) l = firstn n l ++ [x].
Proof.
  revert n; induction l as [|y l IH]; intros n Hn; cbn in Hn; [lia|].
  destruct n as [|n].
  - exists y. cbn. auto.
  - destruct (IH n) as (x & E1 & E2 & E3); [lia|].
    exists x. cbn [nth_error skipn]. rewrite (firstn_cons (S n)), E3.
    repeat split; auto.
Qed.

Lemma repeat_snoc {A : Type} (x : A) (n : nat) :
  repeat x n ++ [x] = repeat x (S n).
Proof.
  induction n as [|n IH]; cbn; [reflexivity|]. f_equal. exact IH.
Qed.

Lemma pushEvent_matched (o : AsyncEventIteratorOptions)
    (pubs : list EventEntry) (n : nat) (s : AsyncEventIterator)
    (event : T) (eventName : string) :
  matched o pubs n s ->
  matched o (pubs ++ [mkEntry eventName (Some event)]) n
    (pushEvent event eventName s).
Proof.
  intros (L & O & EQ & PQ & PS).
  destruct (pushEvent_frame event eventName s) as (_ & C & L' & _).
  parts C.
  unfold matched. rewrite L', L. split; [reflexivity|].
  split; [congruence|]. clear L' H H0.
  rewrite length_app; cbn [List.length].
  unfold pushEvent.
  destruct (Nat.le_gt_cases n (List.length pubs)) as [Hle|Hgt].
  - replace (n - List.length pubs) with 0 in * by lia.
    replace (n - (List.length pubs + 1)) with 0 by lia.
    cbn in PQ. rewrite PQ. cbn.
    rewrite EQ, PS, skipn_app, firstn_app.
    replace (n - List.length pubs) with 0 by lia. cbn.
    rewrite !app_nil_r. auto.
  - destruct (n - List.length pubs) as [|k] eqn:K; [lia|].
    replace (n - (List.length pubs + 1)) with k by lia.
    cbn in PQ. rewrite PQ.
    rewrite skipn_all2 in EQ by lia.
    rewrite firstn_all2 in PS by lia.
    rewrite skipn_all2 by (rewrite length_app; cbn; lia).
    rewrite firstn_all2 by (rewrite length_app; cbn; lia).
    replace (List.length pubs + 1) with (S (List.length pubs)) by lia.
    assert (U : forall v,
      updateAt (settle v) (List.length pubs) (promises s) =
      map (outcomeOf o) pubs ++ v :: repeat Pending k).
    { intros v. rewrite PS. cbn [repeat].
      rewrite <- (length_map (outcomeOf o) pubs) at 1.
      rewrite updateAt_app_length. reflexivity. }
    rewrite map_app. cbn [map]. unfold outcomeOf at 2. cbn [name data].
    rewrite <- app_assoc. cbn [app].
    cbn [options set_promiseQueue]. rewrite O.
    destruct (strictEq eventName (errorEventName o)); cbn; rewrite U; auto.
Qed.

Lemma pullEvent_matched (o : AsyncEventIteratorOptions)
    (pubs : list EventEntry) (n : nat) (s : AsyncEventIterator) :
  matched o pubs n s ->
  matched o pubs (S n) (fst (pullEvent s)) /\ snd (pullEvent s) = n.
Proof.
  intros (L & O & EQ & PQ & PS).
  destruct (pullEvent_frame s) as (_ & C & L' & _).
  parts C.
  assert (LEN : List.length (promises s) = n).
  { rewrite PS, length_app, length_map, length_firstn, repeat_length. lia. }
  unfold matched. rewrite L', L. clear L' H H0.
  unfold pullEvent, newPromise. cbn [eventQueue set_promises].
  destruct (Nat.le_gt_cases (List.length pubs) n) as [Hle|Hgt].
  - rewrite skipn_all2 in EQ by lia. rewrite EQ. fields.
    rewrite skipn_all2 by lia.
    rewrite firstn_all2 in PS by lia. rewrite firstn_all2 by lia.
    rewrite LEN, PQ, PS.
    replace (S n - List.length pubs) with (S (n - List.length pubs)) by lia.
    rewrite seq_S, <- app_assoc, repeat_snoc.
    replace (List.length pubs + (n - List.length pubs)) with n by lia.
    auto 6.
  - destruct (skipn_nth_error pubs Hgt) as (x & _ & SK & FI).
    rewrite SK in EQ. rewrite EQ.
    replace (n - List.length pubs) with 0 in * by lia.
    replace (S n - List.length pubs) with 0 by lia.
    cbn [repeat seq] in *. rewrite app_nil_r in *.
    assert (U : forall v,
      updateAt (settle v) (List.length (promises s)) (promises s ++ [Pending]) =
      map (outcomeOf o) (firstn n pubs) ++ [v]).
    { intros v. rewrite updateAt_app_length, PS. reflexivity. }
    rewrite FI, map_app. cbn [map]. unfold outcomeOf at 2.
    cbn [options set_promises set_eventQueue]. rewrite O.
    destruct (strictEq (name x) (errorEventName o)); cbn; rewrite U; auto 6.
Qed.

Lemma next_matched (o : AsyncEventIteratorOptions)
    (pubs : list EventEntry) (n : nat) (s : AsyncEventIterator) :
  matched o pubs n s ->
  matched o pubs (S n) (fst (next s)) /\ snd (next s) = n.
Proof.
  intros M. unfold next.
  assert (L : listening s = true) by apply M. rewrite L. cbn [negb].
  apply pullEvent_matched.
  destruct (listenersAdded s); cbn [negb]; [exact M|].
  destruct (addEventListeners_frame s) as (R & C). parts R. parts C.
  destruct M as (_ & O & EQ & PQ & PS).
  unfold matched; cbn. repeat split; congruence.
Qed.

Lemma run_matched (o : AsyncEventIteratorOptions) (acts : list Action)
    (pubs : list EventEntry) (n : nat) (s : AsyncEventIterator) :
  matched o pubs n s ->
  matched o (pubs ++ published acts) (n + requests acts)
    (fst (run (map toCall acts) s)) /\
  snd (run (map toCall acts) s) = seq n (requests acts).
Proof.
  revert pubs n s; induction acts as [|a acts IH]; intros pubs n s M.
  - cbn. rewrite app_nil_r, Nat.add_0_r. auto.
  - cbn [map]. rewrite run_cons. destruct a as [event eventName|].
    + cbn [toCall step fst snd published requests app].
      destruct (IH _ n _ (pushEvent_matched event eventName M)) as (M' & R).
      rewrite <- app_assoc in M'. auto.
    + cbn [toCall step published requests].
      destruct (next_matched M) as (M1 & P).
      destruct (next s) as [s1 p]. cbn [fst snd] in *.
      destruct (IH _ _ _ M1) as (M' & R).
      rewrite R, P. replace (n + S (requests acts)) with (S n + requests acts) by lia.
      auto.
Qed.

Lemma constructor_matched (emitter : list (string * Listener))
    (names : list string) (opts : option AsyncEventIteratorOptions) :
  matched (optionsOf opts) [] 0 (constructor emitter names opts).
Proof.
  unfold constructor. fold (optionsOf opts).
  set (s0 := mkIterator _ _ _ _ _ _ _ _ _ _ _ _).
  assert (M : matched (optionsOf opts) [] 0 s0) by (repeat split).
  destruct (listenNow _) as [[|]|]; try exact M.
  destruct (addEventListeners_frame s0) as (R & C). parts R. parts C.
  unfold matched; cbn. repeat split; congruence.
Qed.









(** ** Attaching and detaching *)

Lemma assign_fresh (key : string) (v : Listener) (o : list (string * Listener)) :
  ~ In key (map fst o) -> assign key v o = o ++ [(key, v)].
Proof.
  induction o as [|[k w] o IH]; cbn; intros N; [reflexivity|].
  destruct (String.eqb_spec k key) as [E|E]; [tauto|].
  f_equal. apply IH. tauto.
Qed.

Lemma addNames_closed (ns : list string) (s : AsyncEventIterator) :
  NoDup ns ->
  (forall n, In n ns -> ~ In n (map fst (listeners s))) ->
  let s' :=
    fold_left addNamedListener ns s in
  eventEmitter s' = eventEmitter s ++ namedHandlers (closures s) ns /\
  listeners s' = listeners s ++ namedHandlers (closures s) ns /\
  closures s' = closures s + List.length ns.
Proof.
  revert s; induction ns as [|n ns IH]; intros s ND F;
    cbn [fold_left namedHandlers List.length].
  - rewrite !app_nil_r, Nat.add_0_r. auto.
  - inversion ND as [|? ? NI ND']; subst.
    set (s1 := addNamedListener s n).
    assert (L1 : listeners s1 = listeners s ++ [(n, Bridge (closures s) n)]).
    { unfold s1, addNamedListener, createListener, addListener. fields.
      apply assign_fresh, F. left; reflexivity. }
    destruct (IH s1 ND') as (E & L & K).
    { intros n' I'. rewrite L1, map_app, in_app_iff. cbn.
      intros [I|[I|[]]]; [apply (F n'); [right|]; assumption|].
      subst. contradiction. }
    rewrite E, L, K, L1.
    unfold s1, addNamedListener, createListener, addListener. fields.
    rewrite <- !app_assoc. cbn [app]. repeat split; auto; lia.
Qed.

Lemma add_attached (s : AsyncEventIterator) :
  noHandles s -> NoDup (eventNames s) ->
  attached (eventEmitter s) (addEventListeners s).
Proof.
  intros (L0 & D0 & E0) ND.
  destruct (addEventListeners_frame s) as (_ & C). parts C.
  unfold attached. exists (closures s). cbv zeta. rewrite H, H0. clear H H0.
  unfold addEventListeners.
  destruct (addNames_closed s ND) as (E & L & K).
  { rewrite L0. cbn. auto. }
  destruct (addNames_frame (eventNames s) s) as (_ & C & D & R).
  cbv zeta in E, L, K, C, D, R. parts C.
  set (s1 := fold_left _ (eventNames s) s) in *.
  rewrite L0 in L. cbn [app] in L. rewrite D0 in D. rewrite E0 in R.
  rewrite H0. clear H.
  unfold sentinelHandler.
  destruct (truthy (doneEventName (options s))) as [d|];
    unfold addListener, createListener; fields; rewrite ?H0;
    destruct (truthy (errorEventName (options s))) as [e|];
    fields; cbn [List.length hd_error option_map snd];
    rewrite ?E, ?K, ?Nat.add_0_r, ?Nat.add_1_r, <- ?app_assoc, ?app_nil_r;
    auto.
Qed.

Lemma truthy_Some (o : option string) (n : string) :
  truthy o = Some n -> o = Some n.
Proof.
  destruct o as [[|c r]|]; cbn; congruence.
Qed.

Lemma listenerEqb_eq (a b : Listener) : listenerEqb a b = true <-> a = b.
Proof.
  destruct a as [i n|i], b as [j m|j]; cbn;
    rewrite ?andb_true_iff, ?Nat.eqb_eq, ?String.eqb_eq;
    split; intros H; try discriminate; try (injection H as ? ?; auto);
    try (destruct H; congruence); congruence.
Qed.

Lemma handlerEqb_eq (a b : string * Listener) : handlerEqb a b = true <-> a = b.
Proof.
  destruct a as [n l], b as [m k]. unfold handlerEqb. cbn.
  rewrite andb_true_iff, String.eqb_eq, listenerEqb_eq.
  split; [intros (? & ?); congruence | intros E; injection E; auto].
Qed.

Lemma existsb_handler_false (h : string * Listener)
    (l : list (string * Listener)) :
  ~ In h l -> existsb (handlerEqb h) l = false.
Proof.
  intros N. destruct (existsb (handlerEqb h) l) eqn:E; [|reflexivity].
  apply existsb_exists in E. destruct E as (x & I & E).
  apply handlerEqb_eq in E. subst. contradiction.
Qed.

Lemma removeLast_middle (h : string * Listener)
    (l1 l2 : list (string * Listener)) :
  ~ In h l2 -> removeLast h (l1 ++ h :: l2) = l1 ++ l2.
Proof.
  intros N. induction l1 as [|x l1 IH]; cbn.
  - rewrite (proj2 (handlerEqb_eq h h) eq_refl), existsb_handler_false by exact N.
    reflexivity.
  - rewrite existsb_app. cbn.
    rewrite (proj2 (handlerEqb_eq h h) eq_refl), orb_true_l, orb_true_r.
    cbn [negb]. rewrite andb_false_r.
    f_equal. exact IH.
Qed.

Lemma closuresFrom_notin (k : nat) (n m : string)
    (l : list (string * Listener)) :
  closuresFrom (S k) l -> ~ In (n, Bridge k m) l.
Proof.
  intros C I. apply C in I. lia.
Qed.

Lemma closuresFrom_named (k k' : nat) (ns : list string) :
  k' <= k -> closuresFrom k' (namedHandlers k ns).
Proof.
  revert k; induction ns as [|n ns IH]; intros k Hk m id e; cbn; [tauto|].
  intros [E|I]; [injection E as ? ? ?; lia|].
  apply (IH (S k)) in I; lia.
Qed.

Lemma closuresFrom_app (k : nat) (l1 l2 : list (string * Listener)) :
  closuresFrom k l1 -> closuresFrom k l2 -> closuresFrom k (l1 ++ l2).
Proof.
  intros C1 C2 n id e I. apply in_app_iff in I.
  destruct I as [I|I]; [apply C1 in I | apply C2 in I]; exact I.
Qed.

Lemma closuresFrom_le (k k' : nat) (l : list (string * Listener)) :
  closuresFrom k l -> k' <= k -> closuresFrom k' l.
Proof.
  intros C L n id e I. apply C in I. lia.
Qed.

Lemma removeNames_closed (ns : list string) (k : nat) (s : AsyncEventIterator)
    (em tail : list (string * Listener)) :
  closuresFrom (k + List.length ns) tail ->
  eventEmitter s = em ++ namedHandlers k ns ++ tail ->
  listeners s = namedHandlers k ns ->
  let s' := fold_left removeNamedListener (namedHandlers k ns) s in
  eventEmitter s' = em ++ tail /\ listeners s' = [].
Proof.
  revert k s; induction ns as [|n ns IH]; intros k s C E L;
    cbn [fold_left namedHandlers List.length app] in *.
  - auto.
  - apply IH.
    + eapply closuresFrom_le; [exact C|lia].
    + unfold removeNamedListener, removeListener. fields. rewrite E.
      apply removeLast_middle, closuresFrom_notin, closuresFrom_app.
      * apply closuresFrom_named. lia.
      * eapply closuresFrom_le; [exact C|lia].
    + unfold removeNamedListener, removeListener. fields. rewrite L.
      cbn. rewrite String.eqb_refl. reflexivity.
Qed.

Lemma removeNames_listeners (ls : list (string * Listener))
    (s : AsyncEventIterator) :
  listeners s = ls ->
  listeners (fold_left removeNamedListener ls s) = [].
Proof.
  revert s; induction ls as [|[k w] ls IH]; intros s L; cbn [fold_left].
  - exact L.
  - apply IH. unfold removeNamedListener, removeListener. fields.
    rewrite L. cbn. rewrite String.eqb_refl. reflexivity.
Qed.

Lemma removeEventListeners_noHandles (s : AsyncEventIterator) :
  noHandles (removeEventListeners s).
Proof.
  unfold removeEventListeners, noHandles.
  pose proof (removeNames_listeners s eq_refl) as L.
  destruct (removeNames_frame (listeners s) s) as (_ & _ & D & E & _).
  cbv zeta in D, E.
  set (s1 := fold_left _ (listeners s) s) in *.
  destruct (doneListener s1) as [d|] eqn:D1;
    [destruct (doneEventName (options s1)) as [dn|]|];
    unfold removeListener; fields;
    (destruct (errorListener s1) as [e|] eqn:E1;
     [destruct (errorEventName (options s1)) as [en|]|]);
    fields; auto.
Qed.

Lemma remove_attached (em0 : list (string * Listener))
    (s : AsyncEventIterator) :
  attached em0 s -> eventEmitter (removeEventListeners s) = em0.
Proof.
  intros (k & E & L & D & R). cbv zeta in *.
  set (m := k + List.length (eventNames s)) in *.
  set (dh := sentinelHandler m (doneEventName (options s))) in *.
  set (eh := sentinelHandler (m + List.length dh) (errorEventName (options s))) in *.
  unfold removeEventListeners.
  destruct (removeNames_frame (listeners s) s) as (_ & C & D1 & R1 & _).
  cbv zeta in C, D1, R1. parts C.
  assert (CF : closuresFrom m (dh ++ eh)).
  { unfold dh, eh, sentinelHandler.
    destruct (truthy (doneEventName _)); destruct (truthy (errorEventName _));
      intros n id e; cbn; intros I;
      repeat (destruct I as [I|I]; [injection I as ? ? ?; lia|]); tauto. }
  pose proof L as L'. rewrite L.
  destruct (@removeNames_closed (eventNames s) k s em0 (dh ++ eh) CF E L')
    as (E1 & _).
  cbv zeta in E1. rewrite L in *.
  set (s1 := fold_left _ _ s) in *.
  subst dh eh. clearbody m. unfold sentinelHandler in *.
  rewrite D1, D, H0.
  destruct (truthy (doneEventName (options s))) as [d|] eqn:TD;
    [rewrite (truthy_Some _ TD)|];
    cbn [hd_error option_map snd List.length app] in *;
    unfold removeListener; fields; rewrite ?R1, R, ?H0;
    (destruct (truthy (errorEventName (options s))) as [e|] eqn:TE;
     [rewrite (truthy_Some _ TE)|]);
    cbn [hd_error option_map snd List.length app] in *; fields; rewrite E1.
  - rewrite (@removeLast_middle _ em0 [_]).
    + rewrite (@removeLast_middle _ em0 []), app_nil_r; [reflexivity|intros []].
    + intros [I|[]]. injection I as ? ?. lia.
  - rewrite (@removeLast_middle _ em0 []), app_nil_r; [reflexivity|intros []].
  - rewrite (@removeLast_middle _ em0 []), app_nil_r; [reflexivity|intros []].
  - rewrite app_nil_r. reflexivity.
Qed.

(** ** Promises *)

Lemma nth_error_updateAt {A : Type} (f : A -> A) (p q : nat) (l : list A) :
  nth_error (updateAt f p l) q =
  if Nat.eqb q p then option_map f (nth_error l q) else nth_error l q.
Proof.
  revert p q; induction l as [|x l IH]; intros p q.
  - destruct p, q; cbn; try reflexivity; destruct (Nat.eqb q p); reflexivity.
  - destruct p as [|p], q as [|q]; cbn; try reflexivity. apply IH.
Qed.

Lemma pending_snoc (l : list PromiseState) (v : PromiseState) (p : nat) :
  v <> Pending ->
  (nth_error (l ++ [v]) p = Some Pending <-> nth_error l p = Some Pending).
Proof.
  intros N. destruct (Nat.lt_ge_cases p (List.length l)) as [L|L].
  - rewrite nth_error_app1 by exact L. tauto.
  - rewrite nth_error_app2 by exact L.
    rewrite (proj2 (nth_error_None l p) L).
    destruct (p - List.length l) as [|k]; cbn.
    + split; [intros E; injection E as E; contradiction|discriminate].
    + destruct k; split; discriminate.
Qed.

Lemma pending_lt (s : AsyncEventIterator) (p : nat) :
  promiseState s p = Some Pending -> p < List.length (promises s).
Proof.
  unfold promiseState. intros E. apply nth_error_Some. congruence.
Qed.

Lemma promisesOk_ext (s s' : AsyncEventIterator) :
  promiseQueue s' = promiseQueue s -> promises s' = promises s ->
  listening s' = listening s -> promisesOk s -> promisesOk s'.
Proof.
  unfold promisesOk, promiseState. intros -> -> ->. tauto.
Qed.

Lemma pushEvent_promisesOk (event : T) (eventName : string)
    (s : AsyncEventIterator) :
  promisesOk s -> promisesOk (pushEvent event eventName s).
Proof.
  intros (ND & PE & DR).
  destruct (pushEvent_frame event eventName s) as (_ & _ & L & _).
  unfold promisesOk. rewrite L. clear L.
  unfold pushEvent, promiseState in *.
  destruct (promiseQueue s) as [|p rest] eqn:Q; fields.
  - rewrite Q. auto.
  - inversion ND as [|? ? NI ND']; subst.
    assert (PP : nth_error (promises s) p = Some Pending)
      by (apply PE; left; reflexivity).
    assert (S : forall v, v <> Pending ->
      forall q, nth_error (updateAt (settle v) p (promises s)) q = Some Pending
                <-> In q rest).
    { intros v NV q. rewrite nth_error_updateAt.
      destruct (Nat.eqb_spec q p) as [->|NE].
      - rewrite PP. cbn. split; [intros E; injection E as E|]; contradiction.
      - rewrite PE. cbn. split; [intros [E|I]; [congruence|exact I]|auto]. }
    split; [|split].
    + destruct (strictEq eventName _); exact ND'.
    + destruct (strictEq eventName _); fields; apply S; discriminate.
    + intros D. specialize (DR D). discriminate.
Qed.

Lemma pullEvent_promisesOk (s : AsyncEventIterator) :
  listening s = true -> promisesOk s -> promisesOk (fst (pullEvent s)).
Proof.
  intros LS (ND & PE & DR).
  destruct (pullEvent_frame s) as (_ & _ & L & _).
  unfold promisesOk. rewrite L, LS. clear L.
  assert (NI : ~ In (List.length (promises s)) (promiseQueue s)).
  { intros I. apply PE, pending_lt in I. lia. }
  unfold pullEvent, newPromise, promiseState in *. fields.
  destruct (eventQueue s) as [|entry rest] eqn:Q; fields.
  - split; [|split; [|discriminate]].
    + apply NoDup_app; [exact ND | repeat constructor; intros [] | ].
      intros a I [<-|[]]. contradiction.
    + intros p. rewrite in_app_iff. cbn.
      destruct (Nat.lt_ge_cases p (List.length (promises s))) as [Lp|Lp].
      * rewrite nth_error_app1, PE by exact Lp.
        split; [auto|]. intros [I|[E|[]]]; [exact I|lia].
      * rewrite nth_error_app2 by exact Lp.
        split.
        -- intros E. right. left.
           destruct (p - List.length (promises s)) as [|k] eqn:K; [lia|].
           destruct k; discriminate.
        -- intros [I|[<-|[]]].
           ++ apply PE, pending_lt in I. lia.
           ++ rewrite Nat.sub_diag. reflexivity.
  - assert (S : forall v, v <> Pending ->
      forall q,
        nth_error
          (updateAt (settle v) (List.length (promises s))
             (promises s ++ [Pending])) q = Some Pending
        <-> In q (promiseQueue s)).
    { intros v NV q. rewrite updateAt_app_length. cbn [settle].
      rewrite pending_snoc by exact NV. apply PE. }
    split; [|split; [|discriminate]].
    + destruct (strictEq (name entry) _); exact ND.
    + destruct (strictEq (name entry) _); fields; apply S; discriminate.
Qed.

Lemma resolveAll_promises (r : IteratorResult) (ps : list nat)
    (s : AsyncEventIterator) (q : nat) :
  promiseState (fold_left (fun s p => resolve p r s) ps s) q =
  match promiseState s q with
  | Some Pending => Some (if existsb (Nat.eqb q) ps then Fulfilled r else Pending)
  | other => other
  end.
Proof.
  revert s; induction ps as [|p ps IH]; intros s; cbn [fold_left existsb].
  - destruct (promiseState s q) as [[| |]|]; reflexivity.
  - rewrite IH. unfold promiseState, resolve. fields.
    rewrite nth_error_updateAt.
    destruct (Nat.eqb q p); cbn [orb];
      destruct (nth_error (promises s) q) as [[| |]|]; reflexivity.
Qed.

Lemma drain_promisesOk (s : AsyncEventIterator) :
  promisesOk s -> promisesOk (drain s).
Proof.
  intros (ND & PE & DR). unfold drain.
  destruct (listening s) eqn:LS; [|repeat split; auto; apply PE].
  set (s1 := if listenersAdded _ then _ else _).
  assert (R : promiseQueue s1 = promiseQueue s /\ promises s1 = promises s).
  { unfold s1. cbn [listenersAdded set_listening].
    destruct (listenersAdded s); [|auto].
    destruct (removeEventListeners_frame (set_listening false s)) as (R & _).
    parts R. auto. }
  unfold promisesOk.
  cbn [promiseQueue listening set_eventQueue set_promiseQueue].
  split; [constructor|split; [|reflexivity]].
  intros q. cbn [In]. split; [|intros []].
  pose proof (resolveAll_promises (mkResult None true) (promiseQueue s1) s1 q)
    as RA.
  unfold promiseState in *.
  cbn [promises set_eventQueue set_promiseQueue]. rewrite RA. clear RA.
  destruct R as (R1 & R2). rewrite R1, R2.
  destruct (nth_error (promises s) q) as [[| |]|] eqn:E; try discriminate.
  apply PE in E.
  replace (existsb (Nat.eqb q) (promiseQueue s)) with true; [discriminate|].
  symmetry. apply existsb_exists. exists q. split; [exact E|apply Nat.eqb_refl].
Qed.

(** ** Handlers *)

Lemma listenersOk_ext (em0 : list (string * Listener))
    (s s' : AsyncEventIterator) :
  listenerPart s' = listenerPart s -> config s' = config s ->
  listening s' = listening s -> listenersAdded s' = listenersAdded s ->
  listenersOk em0 s -> listenersOk em0 s'.
Proof.
  intros LP C L A. parts LP. parts C.
  unfold listenersOk, noHandles, attached.
  rewrite L, A, H, H0, H1, H2, H4, H5. tauto.
Qed.

Lemma add_listenersOk (em0 : list (string * Listener))
    (s : AsyncEventIterator) :
  listening s = true -> listenersAdded s = false ->
  listenersOk em0 s ->
  listenersOk em0 (set_listenersAdded true (addEventListeners s)).
Proof.
  intros L A (_ & I & _). destruct (I A) as (E & NH).
  destruct (addEventListeners_frame s) as (R & C). parts R. parts C.
  unfold listenersOk. fields. rewrite H2, L, H4.
  split; [discriminate|split; [discriminate|]].
  intros _ _ ND. pose proof (add_attached NH ND) as AT.
  rewrite E in AT. destruct AT as (k & AT). exists k. exact AT.
Qed.

Lemma drain_listenersOk (em0 : list (string * Listener))
    (s : AsyncEventIterator) :
  listenersOk em0 s -> listenersOk em0 (drain s).
Proof.
  intros OK. unfold drain.
  destruct (listening s) eqn:L; [|exact OK].
  set (s1 := if listenersAdded _ then _ else _).
  assert (OK1 : listenersOk em0 s1 /\ listening s1 = false).
  { destruct OK as (_ & I & AT). unfold s1. cbn [listenersAdded set_listening].
    destruct (listenersAdded s) eqn:A.
    - destruct (removeEventListeners_frame (set_listening false s))
        as (R & C & _). parts R. parts C. cbn in H2, H3, H4.
      split; [|exact H2].
      unfold listenersOk. rewrite H2, H3, H4.
      pose proof (removeEventListeners_noHandles (set_listening false s)) as NH.
      split; [|split; [|discriminate]].
      + intros _. split; [exact NH|]. intros ND.
        apply remove_attached.
        destruct (AT L eq_refl ND) as (k & AK). exists k. exact AK.
      + rewrite A. discriminate.
    - split; [|reflexivity].
      destruct (I eq_refl) as (E & NH).
      unfold listenersOk. cbn. rewrite A. auto. }
  destruct OK1 as (OK1 & L1).
  destruct (resolveAll_frame (promiseQueue s1) (mkResult None true) s1)
    as (LP & C & _ & _ & L2 & A2). cbv zeta in *.
  eapply listenersOk_ext; [| | | |exact OK1]; fields; assumption.
Qed.

Lemma drain_config (s : AsyncEventIterator) : config (drain s) = config s.
Proof.
  unfold drain. destruct (listening s); [|reflexivity].
  set (s1 := if listenersAdded _ then _ else _).
  assert (C1 : config s1 = config s).
  { unfold s1. cbn [listenersAdded set_listening].
    destruct (listenersAdded s); [|reflexivity].
    destruct (removeEventListeners_frame (set_listening false s)) as (_ & C & _).
    exact C. }
  destruct (resolveAll_frame (promiseQueue s1) (mkResult None true) s1)
    as (_ & C & _). cbv zeta in C.
  rewrite <- C1, <- C. reflexivity.
Qed.

Lemma emit_fold (P : AsyncEventIterator -> Prop) (event : T)
    (hs : list Listener) (s : AsyncEventIterator) :
  (forall s eventName, P s -> P (pushEvent event eventName s)) ->
  P s -> P (fold_left (invoke event) hs s).
Proof.
  intros F. revert s; induction hs as [|h hs IH]; intros s H; cbn [fold_left].
  - exact H.
  - apply IH. destruct h; cbn; [apply F|]; exact H.
Qed.

Lemma pushEvent_wellFormed (em0 : list (string * Listener)) (event : T)
    (eventName : string) (s : AsyncEventIterator) :
  wellFormed em0 s -> wellFormed em0 (pushEvent event eventName s).
Proof.
  intros (P & L). split; [apply pushEvent_promisesOk, P|].
  destruct (pushEvent_frame event eventName s) as (LP & C & L1 & A).
  eapply listenersOk_ext; eassumption.
Qed.

Lemma drain_wellFormed (em0 : list (string * Listener))
    (s : AsyncEventIterator) :
  wellFormed em0 s -> wellFormed em0 (drain s).
Proof.
  intros (P & L). split; [apply drain_promisesOk, P|apply drain_listenersOk, L].
Qed.

Lemma settled_wellFormed (em0 : list (string * Listener))
    (v : PromiseState) (s : AsyncEventIterator) :
  v <> Pending -> wellFormed em0 s ->
  wellFormed em0 (set_promises (promises s ++ [v]) s).
Proof.
  intros NV ((ND & PE & DR) & L). split.
  - unfold promisesOk, promiseState in *. fields.
    split; [exact ND|split; [|exact DR]].
    intros p. rewrite pending_snoc by exact NV. apply PE.
  - eapply listenersOk_ext; [| | | |exact L]; reflexivity.
Qed.

Lemma next_wellFormed (em0 : list (string * Listener))
    (s : AsyncEventIterator) :
  wellFormed em0 s -> wellFormed em0 (fst (next s)).
Proof.
  intros W. unfold next. destruct (listening s) eqn:L; cbn [negb].
  - set (s1 := if negb (listenersAdded s) then _ else s).
    assert (W1 : wellFormed em0 s1 /\ listening s1 = true).
    { unfold s1. destruct (listenersAdded s) eqn:A; cbn [negb]; [auto|].
      destruct W as (P & LO).
      destruct (addEventListeners_frame s) as (R & _). parts R.
      split; [split|fields; congruence].
      - eapply promisesOk_ext; [| | |exact P]; fields; assumption.
      - apply add_listenersOk; assumption. }
    destruct W1 as ((P1 & LO1) & L1). split.
    + apply pullEvent_promisesOk; assumption.
    + destruct (pullEvent_frame s1) as (LP & C & L2 & A2).
      eapply listenersOk_ext; eassumption.
  - unfold return_, promiseResolve. cbn [fst].
    apply settled_wellFormed; [discriminate|apply drain_wellFormed, W].
Qed.

Lemma step_wellFormed (em0 : list (string * Listener)) (c : Call)
    (s : AsyncEventIterator) :
  wellFormed em0 s -> wellFormed em0 (fst (step c s)).
Proof.
  intros W. destruct c as [event n|n event| | |error]; cbn [step].
  - apply pushEvent_wellFormed, W.
  - cbn [fst]. unfold emit. apply emit_fold; [|exact W].
    intros s' n'. apply pushEvent_wellFormed.
  - generalize (next_wellFormed W). destruct (next s); auto.
  - unfold return_, promiseResolve. cbn [fst].
    apply settled_wellFormed; [discriminate|apply drain_wellFormed, W].
  - unfold throw, promiseReject. cbn [fst].
    apply settled_wellFormed; [discriminate|apply drain_wellFormed, W].
Qed.

Lemma run_wellFormed (em0 : list (string * Listener)) (cs : list Call)
    (s : AsyncEventIterator) :
  wellFormed em0 s -> wellFormed em0 (fst (run cs s)).
Proof.
  revert s; induction cs as [|c cs IH]; intros s W; [exact W|].
  rewrite run_cons. cbn [fst]. apply IH, step_wellFormed, W.
Qed.

Lemma constructor_wellFormed (em0 : list (string * Listener))
    (names : list string) (opts : option AsyncEventIteratorOptions) :
  wellFormed em0 (constructor em0 names opts).
Proof.
  unfold constructor. fold (optionsOf opts).
  set (s0 := mkIterator _ _ _ _ _ _ _ _ _ _ _ _).
  assert (W : wellFormed em0 s0).
  { split.
    - split; [constructor|split; [|reflexivity]].
      intros p. unfold promiseState. cbn. destruct p; split; easy.
    - unfold listenersOk, noHandles. cbn. repeat split; auto; discriminate. }
  destruct (listenNow _) as [[|]|]; try exact W.
  destruct W as (P & LO).
  destruct (addEventListeners_frame s0) as (R & _). parts R.
  split.
  - eapply promisesOk_ext; [| | |exact P]; fields; assumption.
  - apply add_listenersOk; [reflexivity|reflexivity|exact LO].
Qed.



(** ** Draining *)

Lemma constructor_config (em0 : list (string * Listener))
    (names : list string) (opts : option AsyncEventIteratorOptions) :
  config (constructor em0 names opts) = (names, optionsOf opts).
Proof.
  unfold constructor. fold (optionsOf opts).
  destruct (listenNow _) as [[|]|]; try reflexivity.
  unfold config. fields.
  destruct (addEventListeners_frame
              (mkIterator em0 names (optionsOf opts) [] [] true false []
                 None None [] 0)) as (_ & C).
  exact C.
Qed.

Lemma drain_listening (s : AsyncEventIterator) : listening (drain s) = false.
Proof.
  unfold drain. destruct (listening s) eqn:L; [|exact L].
  set (s1 := if listenersAdded _ then _ else _).
  assert (L1 : listening s1 = false).
  { unfold s1. cbn [listenersAdded set_listening].
    destruct (listenersAdded s); [|reflexivity].
    destruct (removeEventListeners_frame (set_listening false s)) as (R & _).
    parts R. assumption. }
  destruct (resolveAll_frame (promiseQueue s1) (mkResult None true) s1)
    as (_ & _ & _ & _ & L2 & _). cbv zeta in L2.
  fields. congruence.
Qed.



Lemma drain_drained (s : AsyncEventIterator) :
  listening s = false -> drain s = s.
Proof.
  unfold drain. intros ->. reflexivity.
Qed.

Lemma removeEventListeners_listening (b : bool) (s : AsyncEventIterator) :
  removeEventListeners (set_listening b s) =
  set_listening b (removeEventListeners s).
Proof.
  unfold removeEventListeners.
  assert (F : forall ls s0,
    fold_left removeNamedListener ls (set_listening b s0) =
    set_listening b (fold_left removeNamedListener ls s0)).
  { induction ls as [|kv ls IH]; intros s0; cbn [fold_left]; [reflexivity|].
    rewrite <- IH. reflexivity. }
  cbn [listeners set_listening]. rewrite F.
  set (s1 := fold_left _ (listeners s) s).
  cbn [doneListener errorListener options set_listening].
  destruct (doneListener s1) as [d|];
    [destruct (doneEventName (options s1)) as [dn|]|];
    cbn [doneListener errorListener options set_listening set_doneListener
         removeListener set_eventEmitter];
    (destruct (errorListener s1) as [e|];
     [destruct (errorEventName (options s1)) as [en|]|]);
    reflexivity.
Qed.

Lemma drain_detaches (s : AsyncEventIterator) :
  listening s = true ->
  listenerPart (drain s) =
  listenerPart (if listenersAdded s then removeEventListeners s else s).
Proof.
  intros L. unfold drain. rewrite L.
  set (s1 := if listenersAdded (set_listening false s) then _ else _).
  destruct (resolveAll_frame (promiseQueue s1) (mkResult None true) s1)
    as (LP & _). cbv zeta in LP.
  unfold listenerPart in *. fields. rewrite LP. unfold s1. fields.
  destruct (listenersAdded s); [|reflexivity].
  rewrite removeEventListeners_listening. reflexivity.
Qed.




(** ** After the drain *)

Lemma return_drained (s : AsyncEventIterator) :
  listening s = false ->
  return_ s =
  (set_promises (promises s ++ [Fulfilled (returnResult (options s))]) s,
   List.length (promises s)).
Proof.
  intros D. unfold return_, promiseResolve. rewrite (drain_drained s D).
  reflexivity.
Qed.

Lemma throw_drained (error : unknown) (s : AsyncEventIterator) :
  listening s = false ->
  throw error s =
  (set_promises (promises s ++ [Rejected error]) s, List.length (promises s)).
Proof.
  intros D. unfold throw, promiseReject. rewrite (drain_drained s D).
  reflexivity.
Qed.

Lemma step_drained (c : Call) (s : AsyncEventIterator) :
  listening s = false ->
  listening (fst (step c s)) = false /\
  listenerPart (fst (step c s)) = listenerPart s /\
  listenersAdded (fst (step c s)) = listenersAdded s.
Proof.
  intros D. destruct c as [event n|n event| | |error]; cbn [step].
  - destruct (pushEvent_frame event n s) as (LP & _ & L & A).
    cbn [fst]. rewrite L. auto.
  - cbn [fst]. unfold emit.
    apply (emit_fold
             (fun s' => listening s' = false /\
                        listenerPart s' = listenerPart s /\
                        listenersAdded s' = listenersAdded s)); [|auto].
    intros s' n' (L' & LP' & A').
    destruct (pushEvent_frame event n' s') as (LP & _ & L & A).
    rewrite L, LP, A. auto.
  - unfold next. rewrite D. cbn [negb]. rewrite (return_drained s D). auto.
  - rewrite (return_drained s D). auto.
  - rewrite (throw_drained error s D). auto.
Qed.


(** C7.  [return()] and [throw()] stop the listening whatever the state, and
    once the iterator no longer listens every further call is harmless: a
    second [return()] or [throw(err)] only creates its own settled promise and
    leaves every field, the queues and the emitter as they are, [next()] is
    that [return()] and so yields a result whose [done] is true at once, and
    after any further sequence of calls the iterator still does not listen,
    the emitter and the handles are untouched and no closure has been
    created, so that the listeners are never added again. *)
Theorem drained_is_final (s : AsyncEventIterator) (error : unknown)
    (cs : list Call) :
  listening s = false ->
  (forall s0 : AsyncEventIterator,
     listening (fst (return_ s0)) = false /\
     listening (fst (throw error s0)) = false) /\
  return_ s =
    (set_promises (promises s ++ [Fulfilled (returnResult (options s))]) s,
     List.length (promises s)) /\
  throw error s =
    (set_promises (promises s ++ [Rejected error]) s,
     List.length (promises s)) /\
  next s = return_ s /\
  promiseState (fst (next s)) (snd (next s)) =
    Some (Fulfilled (returnResult (options s))) /\
  done (returnResult (options s)) = true /\
  listening (fst (run cs s)) = false /\
  listenerPart (fst (run cs s)) = listenerPart s /\
  listenersAdded (fst (run cs s)) = listenersAdded s.
Proof.
  intros D. split; [|split; [|split; [|split; [|split; [|split]]]]].
  - intros s0. unfold return_, throw, promiseResolve, promiseReject.
    cbn [fst listening set_promises]. split; apply drain_listening.
  - apply (return_drained s D).
  - apply (throw_drained error s D).
  - unfold next. rewrite D. reflexivity.
  - unfold next. rewrite D. cbn [negb]. rewrite (return_drained s D).
    unfold promiseState. cbn [fst snd promises set_promises].
    rewrite nth_error_app2, Nat.sub_diag by lia. reflexivity.
  - reflexivity.
  - revert s D. induction cs as [|c cs IH]; intros s D; [auto|].
    rewrite run_cons. cbn [fst].
    destruct (step_drained c s D) as (L & LP & A).
    destruct (IH _ L) as (L' & LP' & A').
    rewrite L', LP', A', LP, A. auto.
Qed.

(** ** The done and error entries *)


Lemma rendezvous_keeps_handlers (acts : list Action)
    (s : AsyncEventIterator) :
  listening s = true -> listenersAdded s = true ->
  let s' := fst (run (map toCall acts) s) in
  listening s' = true /\ listenersAdded s' = true /\
  listenerPart s' = listenerPart s.
Proof.
  revert s; induction acts as [|a acts IH]; intros s L A; [cbn; auto|].
  cbn [map]. rewrite run_cons. cbn [fst].
  assert (S1 : listening (fst (step (toCall a) s)) = true /\
               listenersAdded (fst (step (toCall a) s)) = true /\
               listenerPart (fst (step (toCall a) s)) = listenerPart s).
  { destruct a as [event eventName|]; cbn [toCall step].
    - destruct (pushEvent_frame event eventName s) as (LP & _ & L' & A').
      cbn [fst]. rewrite L', A'. auto.
    - unfold next. rewrite L, A. cbn [negb].
      destruct (pullEvent_frame s) as (LP & _ & L' & A').
      destruct (pullEvent s) as [s1 p]. cbn [fst] in *. rewrite L', A'. auto. }
  destruct S1 as (L1 & A1 & P1).
  destruct (IH _ L1 A1) as (L2 & A2 & P2). cbv zeta in *.
  rewrite L2, A2, P2, P1. auto.
Qed.



(** C8, as amended.  Without an options argument the done event name is
    ["done"] and the error event name is ["error"]; with an options argument
    the options are exactly the ones given, so a name it leaves out is not set.
    With the done name not set no pull is ever fulfilled with [done] true by
    an entry, with the error name not set no pull is ever rejected, and in
    both cases the iterator keeps listening; only the entry of the result of
    [return()] is then still named ["done"]. *)
Theorem options_default_only_when_absent (em0 : list (string * Listener))
    (names : list string) :
  options (constructor em0 names None) =
    mkOptions (Some "done") (Some "error") None /\
  (forall o, options (constructor em0 names (Some o)) = o) /\
  (forall opts acts,
     let s := fst (run (map toCall acts) (constructor em0 names opts)) in
     (doneEventName (optionsOf opts) = None ->
      Forall (fun st => forall r, st = Fulfilled r -> done r = false)
        (promises s)) /\
     (errorEventName (optionsOf opts) = None ->
      Forall (fun st => forall err, st <> Rejected err) (promises s)) /\
     listening s = true) /\
  (forall s : AsyncEventIterator,
     truthy (doneEventName (options s)) = None ->
     promiseState (fst (return_ s)) (snd (return_ s)) =
     Some (Fulfilled (mkResult (Some (mkEntry "done" None)) true))).
Proof.
  split; [|split; [|split]].
  - reflexivity.
  - intros o. apply (f_equal snd (constructor_config em0 names (Some o))).
  - intros opts acts. cbv zeta.
    destruct (run_matched acts (constructor_matched em0 names opts))
      as ((L & _ & _ & _ & PS) & _).
    rewrite PS. split; [|split; [|exact L]].
    + intros D. apply Forall_app. split.
      * apply Forall_map, Forall_forall. intros e _ r. unfold outcomeOf.
        rewrite D. destruct (strictEq (name e) _); [discriminate|].
        intros E. injection E as <-. reflexivity.
      * apply Forall_forall. intros st I r E.
        apply repeat_spec in I. congruence.
    + intros E. apply Forall_app. split.
      * apply Forall_map, Forall_forall. intros e _ err. unfold outcomeOf.
        rewrite E. cbn. discriminate.
      * apply Forall_forall. intros st I err.
        apply repeat_spec in I. congruence.
  - intros s N. unfold return_, promiseResolve, promiseState.
    cbn [fst snd promises set_promises].
    rewrite nth_error_app2, Nat.sub_diag by lia. cbn [nth_error].
    pose proof (drain_config s) as C. parts C. rewrite H0, N. reflexivity.
Qed.

(** ** Upstream errors *)

Lemma pullEvent_buffered (s : AsyncEventIterator) (entry : EventEntry)
    (rest : list EventEntry) :
  eventQueue s = entry :: rest ->
  pullEvent s =
  (set_promises (promises s ++ [outcomeOf (options s) entry])
     (set_eventQueue rest s),
   List.length (promises s)).
Proof.
  intros Q. unfold pullEvent, newPromise, outcomeOf. fields. rewrite Q.
  destruct (strictEq (name entry) (errorEventName (options s)));
    unfold reject, resolve, set_promises, set_eventQueue; fields;
    rewrite updateAt_app_length; reflexivity.
Qed.

Lemma pulls_deliver_buffered (entries : list EventEntry)
    (s : AsyncEventIterator) :
  listening s = true -> listenersAdded s = true ->
  eventQueue s = entries ->
  run (repeat Next (List.length entries)) s =
  (set_promises (promises s ++ map (outcomeOf (options s)) entries)
     (set_eventQueue [] s),
   seq (List.length (promises s)) (List.length entries)).
Proof.
  revert s; induction entries as [|e rest IH]; intros s L A Q.
  - cbn. rewrite app_nil_r. destruct s; cbn in *; subst. reflexivity.
  - cbn [List.length repeat]. rewrite run_cons. cbn [step].
    unfold next. rewrite L, A. cbn [negb].
    rewrite (pullEvent_buffered s Q). cbn [fst snd].
    rewrite IH; [|exact L|exact A|reflexivity]. fields.
    rewrite length_app, Nat.add_1_r, <- app_assoc. reflexivity.
Qed.

(** C10.  An error entry does not drain.  For an iterator that listens with
    its listeners added: when the entry at the head of the event queue is on
    the error event, the pull that takes it is rejected with its payload and
    changes nothing else but the queue, and the pulls that follow are settled
    by the remaining entries in order, after which the iterator still listens
    with the same handlers; when the notification of an error meets a waiting
    promise, that promise is rejected with the payload and nothing else
    changes but the promise queue losing its head. *)
Theorem upstream_error_does_not_drain (s : AsyncEventIterator) :
  listening s = true -> listenersAdded s = true ->
  (forall entry rest,
     eventQueue s = entry :: rest ->
     strictEq (name entry) (errorEventName (options s)) = true ->
     let r := run (repeat Next (S (List.length rest))) s in
     fst (next s) =
       set_promises (promises s ++ [Rejected (asUnknown (data entry))])
         (set_eventQueue rest s) /\
     fst r =
       set_promises
         (promises s ++
          Rejected (asUnknown (data entry)) :: map (outcomeOf (options s)) rest)
         (set_eventQueue [] s) /\
     snd r = seq (List.length (promises s)) (S (List.length rest)) /\
     listening (fst r) = true /\ listenerPart (fst r) = listenerPart s) /\
  (forall p waiting event eventName,
     promiseQueue s = p :: waiting ->
     promiseState s p = Some Pending ->
     strictEq eventName (errorEventName (options s)) = true ->
     let s' := pushEvent event eventName s in
     s' =
       set_promises
         (updateAt (settle (Rejected (asUnknown (Some event)))) p (promises s))
         (set_promiseQueue waiting s) /\
     promiseState s' p = Some (Rejected (asUnknown (Some event))) /\
     (forall q, q <> p -> promiseState s' q = promiseState s q) /\
     listening s' = true /\ listenerPart s' = listenerPart s).
Proof.
  intros L A. split.
  - intros entry rest Q E. cbv zeta.
    pose proof (pullEvent_buffered s Q) as PB.
    pose proof (@pulls_deliver_buffered (entry :: rest) s L A Q) as PD.
    cbn [List.length] in PD. rewrite PD. cbn [fst snd map].
    unfold next. rewrite L, A. cbn [negb]. rewrite PB. cbn [fst].
    unfold outcomeOf at 1 2. rewrite E.
    repeat split; auto.
  - intros p waiting event eventName Q PP E. cbv zeta.
    unfold pushEvent. rewrite Q. fields. rewrite E.
    unfold promiseState in *. fields.
    split; [reflexivity|]. split; [|split; [|split]].
    + rewrite nth_error_updateAt, Nat.eqb_refl, PP. reflexivity.
    + intros q NE. rewrite nth_error_updateAt.
      destruct (Nat.eqb_spec q p); [contradiction|reflexivity].
    + exact L.
    + reflexivity.
Qed.

(** ** Matching against the head of the other queue *)

Lemma pushEvent_waiting (event : T) (eventName : string)
    (s : AsyncEventIterator) (p : nat) (waiting : list nat) :
  promiseQueue s = p :: waiting ->
  pushEvent event eventName s =
  set_promises
    (updateAt (settle (outcomeOf (options s) (mkEntry eventName (Some event))))
       p (promises s))
    (set_promiseQueue waiting s).
Proof.
  intros Q. unfold pushEvent, outcomeOf. rewrite Q. fields. cbn [name data].
  destruct (strictEq eventName (errorEventName (options s))); reflexivity.
Qed.

(** C1.  At every point reachable from a freshly constructed iterator by any
    sequence of publishes, emitter firings, pulls, stops and aborts, the event
    queue and the promise queue are not both non-empty.  In any state, a
    publish that finds a promise waiting settles the head of the promise queue
    with its entry and buffers nothing, and a pull that finds an entry buffered
    takes the head of the event queue and queues no promise. *)
Theorem queues_never_both_nonempty (emitter : list (string * Listener))
    (names : list string) (opts : option AsyncEventIteratorOptions)
    (cs : list Call) :
  (let s := fst (run cs (constructor emitter names opts)) in
   eventQueue s = [] \/ promiseQueue s = []) /\
  (forall (s : AsyncEventIterator) (event : T) (eventName : string)
          (p : nat) (waiting : list nat),
     promiseQueue s = p :: waiting ->
     let s' := pushEvent event eventName s in
     promiseQueue s' = waiting /\ eventQueue s' = eventQueue s /\
     (promiseState s p = Some Pending ->
      promiseState s' p =
      Some (outcomeOf (options s) (mkEntry eventName (Some event))))) /\
  (forall (s : AsyncEventIterator) (entry : EventEntry)
          (rest : list EventEntry),
     eventQueue s = entry :: rest ->
     let r := pullEvent s in
     eventQueue (fst r) = rest /\ promiseQueue (fst r) = promiseQueue s /\
     promiseState (fst r) (snd r) = Some (outcomeOf (options s) entry)).
Proof.
  split; [|split].
  - cbv zeta.
    generalize (constructor_rendezvous emitter names opts).
    generalize (constructor emitter names opts) as s.
    induction cs as [|c cs IH]; intros s R.
    + exact R.
    + rewrite run_cons. cbn. apply IH, step_rendezvous, R.
  - intros s event eventName p waiting Q. cbv zeta.
    rewrite (pushEvent_waiting event eventName s Q). fields.
    split; [reflexivity|]. split; [reflexivity|].
    unfold promiseState. fields. intros PP.
    rewrite nth_error_updateAt, Nat.eqb_refl, PP. reflexivity.
  - intros s entry rest Q. cbv zeta.
    rewrite (pullEvent_buffered s Q). fields.
    split; [reflexivity|]. split; [reflexivity|].
    unfold promiseState. fields.
    rewrite nth_error_app2, Nat.sub_diag by lia. reflexivity.
Qed.

(** ** One handler for each occurrence of a name *)

Lemma addNames_emitter (ns : list string) (s : AsyncEventIterator) :
  let s' := fold_left addNamedListener ns s in
  eventEmitter s' = eventEmitter s ++ namedHandlers (closures s) ns /\
  closures s' = closures s + List.length ns.
Proof.
  revert s; induction ns as [|n ns IH]; intros s;
    cbn [fold_left namedHandlers List.length].
  - rewrite app_nil_r, Nat.add_0_r. auto.
  - destruct (IH (addNamedListener s n)) as (E & K). cbv zeta in E, K.
    rewrite E, K. unfold addNamedListener, createListener, addListener. fields.
    rewrite <- app_assoc. cbn [app]. split; [reflexivity|lia].
Qed.

Lemma addEventListeners_emitter (s : AsyncEventIterator) :
  let m := closures s + List.length (eventNames s) in
  let dh := sentinelHandler m (doneEventName (options s)) in
  let eh := sentinelHandler (m + List.length dh) (errorEventName (options s)) in
  eventEmitter (addEventListeners s) =
  eventEmitter s ++ namedHandlers (closures s) (eventNames s) ++ dh ++ eh.
Proof.
  cbv zeta. unfold addEventListeners.
  destruct (addNames_emitter (eventNames s) s) as (E & K).
  destruct (addNames_frame (eventNames s) s) as (_ & C & _).
  cbv zeta in E, K, C. parts C. clear H.
  set (s1 := fold_left _ (eventNames s) s) in *.
  rewrite H0. unfold sentinelHandler.
  destruct (truthy (doneEventName (options s))) as [d|];
    unfold addListener, createListener; fields; rewrite ?H0;
    destruct (truthy (errorEventName (options s))) as [e|];
    fields; cbn [List.length];
    rewrite ?E, ?K, ?Nat.add_0_r, ?Nat.add_1_r, <- ?app_assoc, ?app_nil_r;
    reflexivity.
Qed.



Lemma bridgeNames_foreign (n : string) (em : list (string * Listener)) :
  foreignOnly em -> bridgeNames (handlersFor n em) = [].
Proof.
  unfold foreignOnly, handlersFor.
  induction em as [|[m [id e|id]] em IH]; cbn; [reflexivity|discriminate|].
  intros F. destruct (String.eqb m n); cbn; apply IH, F.
Qed.



Lemma invoke_buffers (event : T) (hs : list Listener)
    (s : AsyncEventIterator) :
  promiseQueue s = [] ->
  let s' := fold_left (invoke event) hs s in
  promiseQueue s' = [] /\
  eventQueue s' =
    eventQueue s ++ map (fun n => mkEntry n (Some event)) (bridgeNames hs) /\
  promises s' = promises s.
Proof.
  revert s; induction hs as [|[id n|id] hs IH]; intros s Q;
    cbn [fold_left bridgeNames map invoke].
  - rewrite app_nil_r. auto.
  - assert (P : pushEvent event n s =
                set_eventQueue (eventQueue s ++ [mkEntry n (Some event)]) s)
      by (unfold pushEvent; rewrite Q; reflexivity).
    rewrite P. destruct (IH (set_eventQueue
                               (eventQueue s ++ [mkEntry n (Some event)]) s) Q)
      as (Q' & E' & P').
    cbv zeta in *. rewrite Q', E', P'. fields. rewrite <- app_assoc. auto.
  - apply IH, Q.
Qed.


(** ** Notifications through the emitter *)


Lemma emit_frame (eventName : string) (event : T) (s : AsyncEventIterator) :
  listenerPart (emit eventName event s) = listenerPart s /\
  config (emit eventName event s) = config s /\
  listening (emit eventName event s) = listening s /\
  listenersAdded (emit eventName event s) = listenersAdded s.
Proof.
  unfold emit.
  apply (emit_fold
           (fun s' => listenerPart s' = listenerPart s /\
                      config s' = config s /\
                      listening s' = listening s /\
                      listenersAdded s' = listenersAdded s)); [|auto].
  intros s' n' (LP' & C' & L' & A').
  destruct (pushEvent_frame event n' s') as (LP & C & L & A).
  rewrite LP, C, L, A. auto.
Qed.

Lemma constructor_eager (em0 : list (string * Listener))
    (names : list string) (opts : option AsyncEventIteratorOptions) :
  listenNow (optionsOf opts) = Some true ->
  let s := constructor em0 names opts in
  let o := optionsOf opts in
  let dh := sentinelHandler (List.length names) (doneEventName o) in
  let eh :=
    sentinelHandler (List.length names + List.length dh) (errorEventName o) in
  eventEmitter s = em0 ++ namedHandlers 0 names ++ dh ++ eh /\
  rendezvousPart s = ([], [], [], true, true) /\
  options s = o.
Proof.
  intros LN. cbv zeta. unfold constructor. fold (optionsOf opts). rewrite LN.
  set (s0 := mkIterator em0 names (optionsOf opts) [] [] true false [] None
               None [] 0).
  destruct (addEventListeners_frame s0) as (R & C). parts R. parts C.
  split; [apply (addEventListeners_emitter s0)|].
  unfold rendezvousPart. fields. rewrite H, H0, H1, H2. auto.
Qed.


(** * Further properties of the class *)

(** ** Firings that reach no closure *)

Lemma invoke_foreign (event : T) (hs : list Listener)
    (s : AsyncEventIterator) :
  bridgeNames hs = [] -> fold_left (invoke event) hs s = s.
Proof.
  revert s; induction hs as [|[id n|id] hs IH]; intros s B;
    cbn [fold_left invoke bridgeNames] in *.
  - reflexivity.
  - discriminate.
  - apply IH, B.
Qed.

Lemma emit_foreign (eventName : string) (event : T)
    (s : AsyncEventIterator) :
  foreignOnly (eventEmitter s) -> emit eventName event s = s.
Proof.
  intros F. unfold emit. apply invoke_foreign, bridgeNames_foreign, F.
Qed.

Lemma run_emitAll_foreign (firings : list (string * T))
    (s : AsyncEventIterator) :
  foreignOnly (eventEmitter s) -> run (emitAll firings) s = (s, []).
Proof.
  intros F. induction firings as [|f firings IH]; [reflexivity|].
  unfold emitAll in *. cbn [map]. rewrite run_cons. cbn [step fst snd].
  rewrite (emit_foreign (fst f) (snd f) s F), IH. reflexivity.
Qed.

(** X1.  Unless [listenNow] is true the constructor registers nothing: the
    emitter and the handles are as given, and whatever the emitter fires
    before the first pull leaves the iterator exactly as constructed, so those
    notifications are never delivered. *)
Theorem lazy_construction_observes_nothing (em0 : list (string * Listener))
    (names : list string) (opts : option AsyncEventIteratorOptions)
    (firings : list (string * T)) :
  listenNow (optionsOf opts) <> Some true ->
  foreignOnly em0 ->
  let s0 := constructor em0 names opts in
  eventEmitter s0 = em0 /\ noHandles s0 /\ listenersAdded s0 = false /\
  run (emitAll firings) s0 = (s0, []).
Proof.
  intros LN F. cbv zeta.
  assert (E : constructor em0 names opts =
              mkIterator em0 names (optionsOf opts) [] [] true false []
                None None [] 0).
  { unfold constructor. fold (optionsOf opts).
    destruct (listenNow (optionsOf opts)) as [[|]|]; try reflexivity.
    contradiction LN. reflexivity. }
  rewrite E. split; [reflexivity|]. split; [repeat split|].
  split; [reflexivity|]. apply run_emitAll_foreign. exact F.
Qed.


(** ** Stopping before the listeners are added *)

Lemma run_drained (cs : list Call) (s : AsyncEventIterator) :
  listening s = false ->
  listening (fst (run cs s)) = false /\
  listenerPart (fst (run cs s)) = listenerPart s /\
  listenersAdded (fst (run cs s)) = listenersAdded s.
Proof.
  revert s. induction cs as [|c cs IH]; intros s D; [auto|].
  rewrite run_cons. cbn [fst].
  destruct (step_drained c s D) as (L & LP & A).
  destruct (IH _ L) as (L' & LP' & A').
  rewrite L', LP', A', LP, A. auto.
Qed.

(** X3.  An iterator that has not added its listeners and is stopped by
    [return()] or [throw()] never touches the emitter: whatever is called
    afterwards, the emitter, the handles and the number of closures created
    are those of the moment of the stop, whether or not the event names are
    distinct. *)
Theorem stop_before_attach_leaves_emitter (s : AsyncEventIterator)
    (error : unknown) (cs : list Call) :
  listenersAdded s = false ->
  listenerPart (fst (run cs (fst (return_ s)))) = listenerPart s /\
  listenerPart (fst (run cs (fst (throw error s)))) = listenerPart s /\
  listenersAdded (fst (run cs (fst (return_ s)))) = false /\
  listenersAdded (fst (run cs (fst (throw error s)))) = false.
Proof.
  intros A.
  assert (D : listenerPart (drain s) = listenerPart s /\
              listenersAdded (drain s) = false /\
              listening (drain s) = false).
  { split; [|split; [|apply drain_listening]].
    - destruct (listening s) eqn:L.
      + rewrite (drain_detaches s L), A. reflexivity.
      + rewrite (drain_drained s L). reflexivity.
    - unfold drain. destruct (listening s); [|exact A].
      cbn [listenersAdded set_listening]. rewrite A.
      destruct (resolveAll_frame (promiseQueue (set_listening false s))
                  (mkResult None true) (set_listening false s))
        as (_ & _ & _ & _ & _ & A'). cbv zeta in A'.
      cbn [listenersAdded set_eventQueue set_promiseQueue]. rewrite A'.
      exact A. }
  destruct D as (LP & A' & L).
  assert (G : forall v,
    listenerPart
      (fst (run cs (set_promises (promises (drain s) ++ [v]) (drain s)))) =
    listenerPart s /\
    listenersAdded
      (fst (run cs (set_promises (promises (drain s) ++ [v]) (drain s)))) =
    false).
  { intros v.
    destruct (run_drained cs
                (set_promises (promises (drain s) ++ [v]) (drain s)) L)
      as (_ & LP' & A''). rewrite LP', A''. auto. }
  unfold return_, throw, promiseResolve, promiseReject. cbn [fst].
  destruct (G (Fulfilled
                 (mkResult
                    (Some (mkEntry
                             match truthy (doneEventName (options (drain s))) with
                             | Some n => n
                             | None => "done"
                             end None)) true))) as (G1 & G2).
  destruct (G (Rejected error)) as (G3 & G4). auto.
Qed.

(** ** Adding and removing the listeners *)

Lemma addEventListeners_closures (s : AsyncEventIterator) :
  closures (addEventListeners s) =
  closures s + closuresOf (eventNames s) (options s).
Proof.
  unfold addEventListeners, closuresOf.
  destruct (addNames_emitter (eventNames s) s) as (_ & K).
  destruct (addNames_frame (eventNames s) s) as (_ & C & _).
  cbv zeta in K, C. parts C. clear H.
  set (s1 := fold_left _ (eventNames s) s) in *.
  rewrite H0. unfold sentinelHandler.
  destruct (truthy (doneEventName (options s))) as [d|];
    unfold addListener, createListener; fields; rewrite ?H0;
    destruct (truthy (errorEventName (options s))) as [e|];
    fields; cbn [List.length]; rewrite K; lia.
Qed.

(** X4.  [removeEventListeners] is safe when nothing is attached: on a state
    that holds no handle it changes nothing at all, and running it twice is
    the same as running it once. *)
Theorem removeEventListeners_without_handles (s : AsyncEventIterator) :
  (noHandles s -> removeEventListeners s = s) /\
  removeEventListeners (removeEventListeners s) = removeEventListeners s.
Proof.
  assert (N : forall s0, noHandles s0 -> removeEventListeners s0 = s0).
  { intros s0 (L & D & E). unfold removeEventListeners.
    rewrite L. cbn [fold_left]. rewrite D, E. reflexivity. }
  split; [apply N|]. apply N, removeEventListeners_noHandles.
Qed.


(** ** When a pull waits *)


(** X7.  In every reachable state the pending promises are exactly the ones
    waiting in the promise queue, each of them once; and an iterator that no
    longer listens has none.  So no pull is ever forgotten: it is settled, or
    it is still where the next notification or the drain will find it. *)
Theorem pending_pulls_are_queued (em0 : list (string * Listener))
    (names : list string) (opts : option AsyncEventIteratorOptions)
    (cs : list Call) :
  let s := fst (run cs (constructor em0 names opts)) in
  NoDup (promiseQueue s) /\
  (forall p, promiseState s p = Some Pending <-> In p (promiseQueue s)) /\
  (listening s = false -> forall p, promiseState s p <> Some Pending).
Proof.
  cbv zeta.
  destruct (run_wellFormed cs (constructor_wellFormed em0 names opts))
    as ((ND & PE & DR) & _).
  split; [exact ND|]. split; [exact PE|].
  intros D p E. apply PE in E. rewrite (DR D) in E. destruct E.
Qed.



(** ** The listeners are added at most once *)

Lemma sentinelHandler_length (k : nat) (o : option string) :
  List.length (sentinelHandler k o) = List.length (sentinelHandler 0 o).
Proof.
  unfold sentinelHandler. destruct (truthy o); reflexivity.
Qed.

Lemma namedHandlers_length (k : nat) (ns : list string) :
  List.length (namedHandlers k ns) = List.length ns.
Proof.
  revert k; induction ns as [|n ns IH]; intros k; cbn; [reflexivity|].
  f_equal. apply IH.
Qed.

Lemma removeLast_length (h : string * Listener)
    (em : list (string * Listener)) :
  List.length (removeLast h em) <= List.length em.
Proof.
  induction em as [|x em IH]; cbn; [lia|].
  destruct (handlerEqb x h && negb (existsb (handlerEqb h) em)); cbn; lia.
Qed.

Lemma removeNames_length (ls : list (string * Listener))
    (s : AsyncEventIterator) :
  List.length (eventEmitter (fold_left removeNamedListener ls s)) <=
  List.length (eventEmitter s).
Proof.
  revert s; induction ls as [|kv ls IH]; intros s; cbn [fold_left]; [lia|].
  etransitivity; [apply IH|].
  unfold removeNamedListener, removeListener. fields. apply removeLast_length.
Qed.

Lemma removeEventListeners_length (s : AsyncEventIterator) :
  List.length (eventEmitter (removeEventListeners s)) <=
  List.length (eventEmitter s).
Proof.
  unfold removeEventListeners.
  pose proof (removeNames_length (listeners s) s) as N.
  set (s1 := fold_left _ (listeners s) s) in *.
  destruct (doneListener s1) as [d|];
    [destruct (doneEventName (options s1)) as [dn|]|];
    unfold removeListener; fields;
    (destruct (errorListener s1) as [e|];
     [destruct (errorEventName (options s1)) as [en|]|]);
    fields;
    repeat (etransitivity; [apply removeLast_length|]); exact N.
Qed.

Lemma drain_listenersAdded (s : AsyncEventIterator) :
  listenersAdded (drain s) = listenersAdded s.
Proof.
  unfold drain. destruct (listening s); [|reflexivity].
  set (s1 := if listenersAdded (set_listening false s) then _ else _).
  assert (A1 : listenersAdded s1 = listenersAdded s).
  { unfold s1. cbn [listenersAdded set_listening].
    destruct (listenersAdded s) eqn:A; [|exact A].
    destruct (removeEventListeners_frame (set_listening false s)) as (R & _).
    parts R. cbn [listenersAdded set_listening] in *. congruence. }
  destruct (resolveAll_frame (promiseQueue s1) (mkResult None true) s1)
    as (_ & _ & _ & _ & _ & A'). cbv zeta in A'.
  cbn [listenersAdded set_eventQueue set_promiseQueue]. congruence.
Qed.

(** What the count of closures and the size of the emitter are, for an
    iterator constructed on [em0] with [names] and options [o]. *)
Lemma attach_once_step (em0 : list (string * Listener)) (names : list string)
    (o : AsyncEventIteratorOptions) (c : Call) (s : AsyncEventIterator) :
  let ok s :=
    config s = (names, o) /\
    closures s = (if listenersAdded s then closuresOf names o else 0) /\
    List.length (eventEmitter s) <= List.length em0 + closures s in
  ok s -> ok (fst (step c s)).
Proof.
  cbv zeta. intros (C & K & E).
  assert (FR : forall s', listenerPart s' = listenerPart s ->
                          config s' = config s ->
                          listenersAdded s' = listenersAdded s ->
    config s' = (names, o) /\
    closures s' = (if listenersAdded s' then closuresOf names o else 0) /\
    List.length (eventEmitter s') <= List.length em0 + closures s').
  { intros s' LP C' A'. parts LP. rewrite C', A', H3, H. auto. }
  assert (DR : forall v,
    let d := set_promises (promises (drain s) ++ [v]) (drain s) in
    config d = (names, o) /\
    closures d = (if listenersAdded d then closuresOf names o else 0) /\
    List.length (eventEmitter d) <= List.length em0 + closures d).
  { intros v. cbv zeta.
    cbn [closures listenersAdded eventEmitter set_promises].
    change (config (set_promises (promises (drain s) ++ [v]) (drain s)))
      with (config (drain s)).
    rewrite drain_config, drain_listenersAdded.
    split; [exact C|].
    destruct (listening s) eqn:L; [|rewrite (drain_drained s L); auto].
    pose proof (drain_detaches s L) as LP. parts LP. rewrite H3, H.
    destruct (listenersAdded s); [|auto].
    destruct (removeEventListeners_frame s) as (_ & _ & K').
    rewrite K'. split; [exact K|].
    etransitivity; [apply removeEventListeners_length|exact E]. }
  destruct c as [event n|n event| | |error]; cbn [step].
  - destruct (pushEvent_frame event n s) as (LP & C' & _ & A').
    apply FR; assumption.
  - destruct (emit_frame n event s) as (LP & C' & _ & A').
    apply FR; assumption.
  - replace (fst (let (s', p) := next s in (s', [p]))) with (fst (next s))
      by (destruct (next s); reflexivity).
    unfold next. destruct (listening s) eqn:L; cbn [negb].
    + set (s1 := if negb (listenersAdded s) then _ else s).
      assert (OK1 : config s1 = (names, o) /\
                    closures s1 =
                      (if listenersAdded s1 then closuresOf names o else 0) /\
                    List.length (eventEmitter s1) <=
                      List.length em0 + closures s1).
      { unfold s1. destruct (listenersAdded s) eqn:A; cbn [negb]; [auto|].
        destruct (addEventListeners_frame s) as (_ & C').
        unfold config in *. fields.
        pose proof (addEventListeners_closures s) as KA.
        pose proof (addEventListeners_emitter s) as EA. cbv zeta in EA.
        injection C as CN CO. rewrite CN, CO in KA.
        split; [congruence|]. split; [lia|].
        rewrite EA, !length_app, KA.
        rewrite (sentinelHandler_length _ (doneEventName (options s))).
        rewrite (sentinelHandler_length _ (errorEventName (options s))).
        rewrite namedHandlers_length, CN, CO. unfold closuresOf. lia. }
      destruct OK1 as (C1 & K1 & E1).
      destruct (pullEvent_frame s1) as (LP & C' & _ & A').
      parts LP. rewrite C', A', H3, H. auto.
    + apply (DR (Fulfilled
                   (mkResult
                      (Some (mkEntry
                               match
                                 truthy (doneEventName (options (drain s)))
                               with
                               | Some n => n
                               | None => "done"
                               end None)) true))).
  - apply (DR (Fulfilled
                 (mkResult
                    (Some (mkEntry
                             match truthy (doneEventName (options (drain s))) with
                             | Some n => n
                             | None => "done"
                             end None)) true))).
  - apply (DR (Rejected error)).
Qed.

(** X10.  The listeners are added at most once in the life of an iterator.
    In every reachable state the number of closures ever created and
    registered is 0 while the listeners have not been added and, from then on
    and for good, one for each event name plus one for each of the done and
    error names that is set; the emitter never holds more handlers than it had
    at construction plus that number. *)
Theorem listeners_added_at_most_once (em0 : list (string * Listener))
    (names : list string) (opts : option AsyncEventIteratorOptions)
    (cs : list Call) :
  let s := fst (run cs (constructor em0 names opts)) in
  closures s =
    (if listenersAdded s then closuresOf names (optionsOf opts) else 0) /\
  List.length (eventEmitter s) <= List.length em0 + closures s /\
  (forall ds, listenersAdded s = true ->
              listenersAdded (fst (run ds s)) = true /\
              closures (fst (run ds s)) = closures s).
Proof.
  cbv zeta.
  assert (I : forall cs s,
    (config s = (names, optionsOf opts) /\
     closures s =
       (if listenersAdded s then closuresOf names (optionsOf opts) else 0) /\
     List.length (eventEmitter s) <= List.length em0 + closures s) ->
    (config (fst (run cs s)) = (names, optionsOf opts) /\
     closures (fst (run cs s)) =
       (if listenersAdded (fst (run cs s))
        then closuresOf names (optionsOf opts) else 0) /\
     List.length (eventEmitter (fst (run cs s))) <=
       List.length em0 + closures (fst (run cs s)))).
  { induction cs0 as [|c cs0 IH]; intros s OK; [exact OK|].
    rewrite run_cons. cbn [fst].
    apply IH, (@attach_once_step em0 names (optionsOf opts) c s OK). }
  assert (M : forall ds s, listenersAdded s = true ->
                           listenersAdded (fst (run ds s)) = true).
  { induction ds as [|c ds IH]; intros s A; [exact A|].
    rewrite run_cons. cbn [fst]. apply IH.
    destruct c as [event n|n event| | |error]; cbn [step].
    - destruct (pushEvent_frame event n s) as (_ & _ & _ & A').
      cbn [fst]. congruence.
    - destruct (emit_frame n event s) as (_ & _ & _ & A').
      cbn [fst]. congruence.
    - replace (fst (let (s', p) := next s in (s', [p]))) with (fst (next s))
        by (destruct (next s); reflexivity).
      unfold next. rewrite A. cbn [negb].
      destruct (listening s); cbn [negb].
      + destruct (pullEvent_frame s) as (_ & _ & _ & A'). congruence.
      + unfold return_, promiseResolve. cbn [fst listenersAdded set_promises].
        rewrite drain_listenersAdded. exact A.
    - unfold return_, promiseResolve. cbn [fst listenersAdded set_promises].
      rewrite drain_listenersAdded. exact A.
    - unfold throw, promiseReject. cbn [fst listenersAdded set_promises].
      rewrite drain_listenersAdded. exact A. }
  assert (OK0 : config (constructor em0 names opts) = (names, optionsOf opts) /\
    closures (constructor em0 names opts) =
      (if listenersAdded (constructor em0 names opts)
       then closuresOf names (optionsOf opts) else 0) /\
    List.length (eventEmitter (constructor em0 names opts)) <=
      List.length em0 + closures (constructor em0 names opts)).
  { split; [apply constructor_config|].
    destruct (listenNow (optionsOf opts)) as [[|]|] eqn:LN.
    - destruct (constructor_eager em0 names opts LN) as (EM & R & _).
      cbv zeta in EM. parts R.
      assert (K : closures (constructor em0 names opts) =
                  closuresOf names (optionsOf opts)).
      { unfold constructor. fold (optionsOf opts). rewrite LN. fields.
        rewrite addEventListeners_closures. reflexivity. }
      rewrite H3, K, EM, !length_app.
      rewrite (sentinelHandler_length _ (doneEventName (optionsOf opts))).
      rewrite (sentinelHandler_length _ (errorEventName (optionsOf opts))).
      rewrite namedHandlers_length. unfold closuresOf.
      split; [reflexivity|lia].
    - unfold constructor. fold (optionsOf opts). rewrite LN. cbn. split; lia.
    - unfold constructor. fold (optionsOf opts). rewrite LN. cbn. split; lia. }
  destruct (I cs _ OK0) as (C & K & E).
  split; [exact K|]. split; [exact E|].
  intros ds A. split; [apply M, A|].
  destruct (I ds _ (conj C (conj K E))) as (_ & K' & _).
  rewrite K', (M ds _ A), K, A. reflexivity.
Qed.

(** ** How many entries a firing gives *)



(** ** The handlers of others *)

Lemma foreignHandlers_removeLast (n : string) (l : Listener)
    (em : list (string * Listener)) :
  isBridge l ->
  foreignHandlers (removeLast (n, l) em) = foreignHandlers em.
Proof.
  intros (id & e & ->). unfold foreignHandlers.
  induction em as [|x em IH]; cbn [removeLast filter]; [reflexivity|].
  destruct (handlerEqb x (n, Bridge id e)) eqn:HE; cbn [andb].
  - apply handlerEqb_eq in HE. subst x. cbn [isForeign snd].
    destruct (negb (existsb (handlerEqb (n, Bridge id e)) em));
      [reflexivity|].
    cbn [filter isForeign snd]. exact IH.
  - cbn [filter]. rewrite IH. reflexivity.
Qed.

Lemma foreignHandlers_removeNames (ls : list (string * Listener))
    (s : AsyncEventIterator) :
  (forall k l, In (k, l) ls -> isBridge l) ->
  foreignHandlers (eventEmitter (fold_left removeNamedListener ls s)) =
  foreignHandlers (eventEmitter s).
Proof.
  revert s; induction ls as [|[k l] ls IH]; intros s B; cbn [fold_left];
    [reflexivity|].
  rewrite IH by (intros k' l' I; apply (B k' l'); right; exact I).
  unfold removeNamedListener, removeListener. fields.
  apply foreignHandlers_removeLast, (B k l). left; reflexivity.
Qed.

Lemma foreignHandlers_remove (s : AsyncEventIterator) :
  ownHandles s ->
  foreignHandlers (eventEmitter (removeEventListeners s)) =
  foreignHandlers (eventEmitter s).
Proof.
  intros (BL & BD & BE). unfold removeEventListeners.
  pose proof (foreignHandlers_removeNames (listeners s) s BL) as N.
  destruct (removeNames_frame (listeners s) s) as (_ & _ & D & E & _).
  cbv zeta in D, E.
  set (s1 := fold_left _ (listeners s) s) in *.
  rewrite <- N. rewrite <- D in BD. rewrite <- E in BE. clear N D E.
  destruct (doneListener s1) as [d|];
    [destruct (doneEventName (options s1)) as [dn|]|];
    unfold removeListener; fields;
    (destruct (errorListener s1) as [e|];
     [destruct (errorEventName (options s1)) as [en|]|]);
    fields;
    rewrite ?foreignHandlers_removeLast by auto; reflexivity.
Qed.

Lemma foreignHandlers_named (k : nat) (ns : list string) :
  foreignHandlers (namedHandlers k ns) = [].
Proof.
  revert k; induction ns as [|n ns IH]; intros k; cbn; [reflexivity|apply IH].
Qed.

Lemma foreignHandlers_add (s : AsyncEventIterator) :
  foreignHandlers (eventEmitter (addEventListeners s)) =
  foreignHandlers (eventEmitter s).
Proof.
  rewrite addEventListeners_emitter. unfold foreignHandlers.
  rewrite !filter_app. fold (foreignHandlers (namedHandlers (closures s)
                                                (eventNames s))).
  rewrite foreignHandlers_named. unfold sentinelHandler.
  destruct (truthy (doneEventName (options s)));
    destruct (truthy (errorEventName (options s))); cbn;
    rewrite ?app_nil_r; reflexivity.
Qed.

Lemma assign_In (key : string) (v : Listener) (o : list (string * Listener))
    (k : string) (l : Listener) :
  In (k, l) (assign key v o) -> (k, l) = (key, v) \/ In (k, l) o.
Proof.
  induction o as [|[k' w] o IH]; cbn [assign].
  - cbn. intros [E|[]]. left. symmetry. exact E.
  - destruct (String.eqb_spec k' key) as [->|NE]; cbn [In].
    + intros [E|I]; [left; symmetry; exact E|right; right; exact I].
    + intros [E|I]; [right; left; exact E|].
      destruct (IH I) as [E|I']; [left; exact E|right; right; exact I'].
Qed.

Lemma ownHandles_ext (s s' : AsyncEventIterator) :
  listenerPart s' = listenerPart s -> ownHandles s -> ownHandles s'.
Proof.
  intros LP. parts LP. unfold ownHandles. rewrite H0, H1, H2. tauto.
Qed.

Lemma ownHandles_addNames (ns : list string) (s : AsyncEventIterator) :
  (forall k l, In (k, l) (listeners s) -> isBridge l) ->
  forall k l, In (k, l) (listeners (fold_left addNamedListener ns s)) ->
              isBridge l.
Proof.
  revert s; induction ns as [|n ns IH]; intros s B; cbn [fold_left];
    [exact B|].
  apply IH. intros k l.
  unfold addNamedListener, createListener, addListener. fields.
  intros I. destruct (assign_In _ _ _ _ _ I) as [E|I'].
  - injection E as _ ->. exists (closures s), n. reflexivity.
  - apply (B k l I').
Qed.

Lemma ownHandles_add (s : AsyncEventIterator) :
  ownHandles s -> ownHandles (addEventListeners s).
Proof.
  intros (BL & BD & BE). unfold addEventListeners.
  pose proof (ownHandles_addNames (eventNames s) s BL) as BL1.
  destruct (addNames_frame (eventNames s) s) as (_ & _ & D & E).
  cbv zeta in D, E.
  set (s1 := fold_left _ (eventNames s) s) in *.
  rewrite <- D in BD. rewrite <- E in BE. clear D E.
  unfold ownHandles.
  destruct (truthy (doneEventName (options s1))) as [d|];
    unfold addListener, createListener; fields;
    (destruct (truthy (errorEventName (options s1))) as [e|]);
    fields; (split; [exact BL1|]); split; try assumption;
    intros l E; injection E as <-; eexists _, _; reflexivity.
Qed.

Lemma noHandles_ownHandles (s : AsyncEventIterator) :
  noHandles s -> ownHandles s.
Proof.
  intros (L & D & E). unfold ownHandles. rewrite L, D, E.
  repeat split; [intros k l []|discriminate|discriminate].
Qed.

Lemma foreign_step (em0 : list (string * Listener)) (c : Call)
    (s : AsyncEventIterator) :
  let ok s :=
    ownHandles s /\
    foreignHandlers (eventEmitter s) = foreignHandlers em0 in
  ok s -> ok (fst (step c s)).
Proof.
  cbv zeta. intros (O & F).
  assert (FR : forall s', listenerPart s' = listenerPart s ->
    ownHandles s' /\
    foreignHandlers (eventEmitter s') = foreignHandlers em0).
  { intros s' LP. split; [apply (ownHandles_ext LP O)|].
    parts LP. rewrite H. exact F. }
  assert (DR : forall v,
    let d := set_promises (promises (drain s) ++ [v]) (drain s) in
    ownHandles d /\
    foreignHandlers (eventEmitter d) = foreignHandlers em0).
  { intros v. cbv zeta.
    assert (G : ownHandles (drain s) /\
                foreignHandlers (eventEmitter (drain s)) =
                foreignHandlers em0).
    { destruct (listening s) eqn:L; [|rewrite (drain_drained s L); auto].
      pose proof (drain_detaches s L) as LP.
      destruct (listenersAdded s).
      - split.
        + apply (ownHandles_ext LP), noHandles_ownHandles,
            removeEventListeners_noHandles.
        + parts LP. rewrite H, (foreignHandlers_remove O). exact F.
      - apply FR. exact LP. }
    destruct G as (G1 & G2). split; [|exact G2].
    apply (@ownHandles_ext (drain s)); [reflexivity|exact G1]. }
  destruct c as [event n|n event| | |error]; cbn [step].
  - destruct (pushEvent_frame event n s) as (LP & _). apply FR, LP.
  - destruct (emit_frame n event s) as (LP & _). apply FR, LP.
  - replace (fst (let (s', p) := next s in (s', [p]))) with (fst (next s))
      by (destruct (next s); reflexivity).
    unfold next. destruct (listening s) eqn:L; cbn [negb].
    + set (s1 := if negb (listenersAdded s) then _ else s).
      assert (OK1 : ownHandles s1 /\
                    foreignHandlers (eventEmitter s1) = foreignHandlers em0).
      { unfold s1. destruct (listenersAdded s); cbn [negb]; [auto|]. split.
        - apply (@ownHandles_ext (addEventListeners s)); [reflexivity|].
          apply ownHandles_add, O.
        - fields. rewrite foreignHandlers_add. exact F. }
      destruct OK1 as (O1 & F1).
      destruct (pullEvent_frame s1) as (LP & _).
      split; [apply (ownHandles_ext LP O1)|].
      parts LP. rewrite H. exact F1.
    + apply (DR (Fulfilled
                   (mkResult
                      (Some (mkEntry
                               match
                                 truthy (doneEventName (options (drain s)))
                               with
                               | Some n => n
                               | None => "done"
                               end None)) true))).
  - apply (DR (Fulfilled
                 (mkResult
                    (Some (mkEntry
                             match truthy (doneEventName (options (drain s))) with
                             | Some n => n
                             | None => "done"
                             end None)) true))).
  - apply (DR (Rejected error)).
Qed.

(** X12.  The iterator only ever adds and removes closures of its own.  In
    every reachable state the handlers of others on the emitter are exactly
    those that were there at construction, in the same order, whatever the
    event names (duplicates included) and whatever the calls. *)
Theorem handlers_of_others_are_untouched (em0 : list (string * Listener))
    (names : list string) (opts : option AsyncEventIteratorOptions)
    (cs : list Call) :
  foreignHandlers (eventEmitter (fst (run cs (constructor em0 names opts)))) =
  foreignHandlers em0.
Proof.
  assert (I : forall cs s,
    (ownHandles s /\
     foreignHandlers (eventEmitter s) = foreignHandlers em0) ->
    (ownHandles (fst (run cs s)) /\
     foreignHandlers (eventEmitter (fst (run cs s))) = foreignHandlers em0)).
  { induction cs0 as [|c cs0 IH]; intros s OK; [exact OK|].
    rewrite run_cons. cbn [fst]. apply IH, (@foreign_step em0 c s OK). }
  apply I. unfold constructor. fold (optionsOf opts).
  set (s0 := mkIterator em0 names (optionsOf opts) [] [] true false [] None
               None [] 0).
  assert (OK0 : ownHandles s0 /\
                foreignHandlers (eventEmitter s0) = foreignHandlers em0).
  { split; [apply noHandles_ownHandles; repeat split|reflexivity]. }
  destruct (listenNow (optionsOf opts)) as [[|]|]; try exact OK0.
  destruct OK0 as (O & F). split.
  - apply (@ownHandles_ext (addEventListeners s0)); [reflexivity|].
    apply ownHandles_add, O.
  - fields. rewrite foreignHandlers_add. exact F.
Qed.

(** ** The handler a repeated name leaves behind *)

Lemma assign_keys (key : string) (v : Listener)
    (o : list (string * Listener)) :
  NoDup (map fst o) ->
  NoDup (map fst (assign key v o)) /\
  forall k l, In (k, l) (assign key v o) ->
              (k, l) = (key, v) \/ (In (k, l) o /\ k <> key).
Proof.
  induction o as [|[k' w] o IH]; cbn [assign map fst]; intros ND.
  - split; [repeat constructor; intros []|].
    intros k l [E|[]]. left. symmetry. exact E.
  - inversion ND as [|? ? NI ND']; subst.
    destruct (String.eqb_spec k' key) as [->|NE]; cbn [map fst In].
    + split; [exact ND|].
      intros k l [E|I]; [left; symmetry; exact E|].
      right. split; [right; exact I|].
      intros ->. apply NI. apply (in_map fst) in I. exact I.
    + destruct (IH ND') as (ND1 & IN1). split.
      * constructor; [|exact ND1].
        intros I. apply in_map_iff in I. destruct I as ([k l] & E & I).
        cbn in E. subst k. destruct (IN1 _ _ I) as [E|(I' & _)].
        -- injection E as -> _. apply NE. reflexivity.
        -- apply NI. apply (in_map fst) in I'. exact I'.
      * intros k l [E|I].
        -- right. split; [left; exact E|]. injection E as <- _. exact NE.
        -- destruct (IN1 _ _ I) as [E|(I' & NK)]; [left; exact E|].
           right. split; [right; exact I'|exact NK].
Qed.

Lemma addNames_listeners (ns : list string) (s : AsyncEventIterator) :
  NoDup (map fst (listeners s)) ->
  let s' := fold_left addNamedListener ns s in
  NoDup (map fst (listeners s')) /\
  forall k l, In (k, l) (listeners s') ->
              (In (k, l) (listeners s) /\ ~ In k ns) \/
              (exists id, l = Bridge id k /\ closures s <= id).
Proof.
  revert s; induction ns as [|n ns IH]; intros s ND; cbn [fold_left].
  - split; [exact ND|]. intros k l I. left. split; [exact I|intros []].
  - set (s1 := addNamedListener s n).
    assert (L1 : listeners s1 =
                 assign n (Bridge (closures s) n) (listeners s))
      by reflexivity.
    assert (K1 : closures s1 = S (closures s)) by reflexivity.
    destruct (@assign_keys n (Bridge (closures s) n) (listeners s) ND)
      as (ND1 & IN1).
    rewrite <- L1 in ND1, IN1.
    destruct (IH s1 ND1) as (ND2 & IN2). cbv zeta in ND2, IN2.
    split; [exact ND2|].
    intros k l I. destruct (IN2 _ _ I) as [(I1 & NI)|(id & E & B)].
    + destruct (IN1 _ _ I1) as [E|(I0 & NK)].
      * injection E as -> ->. right. exists (closures s). auto.
      * left. split; [exact I0|]. intros [E|I']; [congruence|contradiction].
    + right. exists id. split; [exact E|lia].
Qed.

Lemma namedHandlers_app (k : nat) (a b : list string) :
  namedHandlers k (a ++ b) =
  namedHandlers k a ++ namedHandlers (k + List.length a) b.
Proof.
  revert k; induction a as [|x a IH]; intros k; cbn.
  - rewrite Nat.add_0_r. reflexivity.
  - rewrite IH.
    replace (S k + List.length a) with (k + S (List.length a)) by lia.
    reflexivity.
Qed.

Lemma removeLast_keeps (x h : string * Listener)
    (em : list (string * Listener)) :
  In x em -> x <> h -> In x (removeLast h em).
Proof.
  intros I NE. induction em as [|y em IH]; cbn [removeLast]; [exact I|].
  destruct (handlerEqb y h) eqn:HE; cbn [andb].
  - apply handlerEqb_eq in HE. subst y.
    destruct I as [E|I]; [congruence|].
    destruct (negb (existsb (handlerEqb h) em)); [exact I|].
    right. apply IH, I.
  - destruct I as [E|I]; [left; exact E|right; apply IH, I].
Qed.

Lemma removeNames_keeps (x : string * Listener)
    (ls : list (string * Listener)) (s : AsyncEventIterator) :
  In x (eventEmitter s) -> ~ In x ls ->
  In x (eventEmitter (fold_left removeNamedListener ls s)).
Proof.
  revert s; induction ls as [|[k l] ls IH]; intros s I NI; cbn [fold_left];
    [exact I|].
  apply IH; [|intros I'; apply NI; right; exact I'].
  unfold removeNamedListener, removeListener. fields.
  apply removeLast_keeps; [exact I|].
  intros ->. apply NI. left; reflexivity.
Qed.

Lemma removeEventListeners_keeps (x : string * Listener)
    (s : AsyncEventIterator) :
  In x (eventEmitter s) -> ~ In x (listeners s) ->
  doneListener s <> Some (snd x) -> errorListener s <> Some (snd x) ->
  In x (eventEmitter (removeEventListeners s)).
Proof.
  intros I NL ND NE. unfold removeEventListeners.
  pose proof (@removeNames_keeps x (listeners s) s I NL) as I1.
  destruct (removeNames_frame (listeners s) s) as (_ & _ & D & E & _).
  cbv zeta in D, E.
  set (s1 := fold_left _ (listeners s) s) in *.
  rewrite <- D in ND. rewrite <- E in NE. clear D E.
  assert (K : forall n l, Some l <> Some (snd x) -> x <> (n, l)).
  { intros n l N ->. apply N. reflexivity. }
  destruct (doneListener s1) as [d|];
    [destruct (doneEventName (options s1)) as [dn|]|];
    unfold removeListener; fields;
    (destruct (errorListener s1) as [e|];
     [destruct (errorEventName (options s1)) as [en|]|]);
    fields;
    repeat (apply removeLast_keeps; [|apply K; assumption]); exact I1.
Qed.

Lemma addEventListeners_handles (s : AsyncEventIterator) :
  noHandles s ->
  listeners (addEventListeners s) =
    listeners (fold_left addNamedListener (eventNames s) s) /\
  (forall l, doneListener (addEventListeners s) = Some l ->
             exists id d, l = Bridge id d /\
                          closures s + List.length (eventNames s) <= id) /\
  (forall l, errorListener (addEventListeners s) = Some l ->
             exists id d, l = Bridge id d /\
                          closures s + List.length (eventNames s) <= id).
Proof.
  intros (_ & D0 & E0). unfold addEventListeners.
  destruct (addNames_emitter (eventNames s) s) as (_ & K).
  destruct (addNames_frame (eventNames s) s) as (_ & _ & D & E).
  cbv zeta in K, D, E.
  set (s1 := fold_left _ (eventNames s) s) in *.
  rewrite D0 in D. rewrite E0 in E.
  destruct (truthy (doneEventName (options s1))) as [d|];
    unfold addListener, createListener; fields;
    (destruct (truthy (errorEventName (options s1))) as [e|]);
    fields; (split; [reflexivity|]); rewrite ?D, ?E; split;
    intros l EQ; try discriminate; injection EQ as <-;
    eexists _, _; (split; [reflexivity|lia]).
Qed.

Lemma bridgeNames_In (n : string) (id : nat)
    (em : list (string * Listener)) :
  In (n, Bridge id n) em -> In n (bridgeNames (handlersFor n em)).
Proof.
  unfold handlersFor. induction em as [|[m l] em IH]; cbn [filter fst];
    [intros []|].
  intros [E|I].
  - injection E as -> ->. rewrite String.eqb_refl. cbn. left; reflexivity.
  - destruct (String.eqb m n); cbn [map snd bridgeNames]; [|apply IH, I].
    destruct l; cbn [bridgeNames]; [right|]; apply IH, I.
Qed.

(** X13.  A name that occurs more than once among the event names leaves a
    handler behind.  For an iterator whose listeners were added at
    construction and whose names are [a ++ n :: b] with [n] again in [b]:
    after any notifications and pulls, [return()] and [throw()] leave the
    closure registered for that earlier occurrence of [n] on the emitter, and
    a later firing of [n] still pushes an entry into the event queue of the
    stopped iterator. *)
Theorem repeated_name_leaves_a_handler (em0 : list (string * Listener))
    (opts : option AsyncEventIteratorOptions) (a b : list string) (n : string)
    (acts : list Action) (error : unknown) (event : T) :
  listenNow (optionsOf opts) = Some true -> In n b ->
  let s := fst (run (map toCall acts) (constructor em0 (a ++ n :: b) opts)) in
  let h := (n, Bridge (List.length a) n) in
  In h (eventEmitter (fst (return_ s))) /\
  In h (eventEmitter (fst (throw error s))) /\
  In (mkEntry n (Some event)) (eventQueue (emit n event (fst (return_ s)))).
Proof.
  intros LN IB. cbv zeta.
  set (names := a ++ n :: b).
  set (s0 := mkIterator em0 names (optionsOf opts) [] [] true false [] None
               None [] 0 : AsyncEventIterator).
  assert (NH : noHandles s0) by (repeat split).
  assert (C0 : constructor em0 names opts =
               set_listenersAdded true (addEventListeners s0)).
  { unfold constructor. fold (optionsOf opts). rewrite LN. reflexivity. }
  set (s1 := addEventListeners s0) in *.
  set (h := (n, Bridge (List.length a) n)).
  (* the handler is registered, and it is not among the handles *)
  assert (HE : In h (eventEmitter s1)).
  { unfold s1. rewrite addEventListeners_emitter.
    apply in_or_app. right. apply in_or_app. left.
    cbn [eventNames closures s0]. unfold names.
    rewrite namedHandlers_app. apply in_or_app. right. left. reflexivity. }
  destruct (addEventListeners_handles NH) as (LS & DS & ES).
  fold s1 in LS, DS, ES. cbn [eventNames closures s0 Nat.add] in LS, DS, ES.
  assert (HL : ~ In h (listeners s1)).
  { rewrite LS. unfold names.
    replace (a ++ n :: b) with ((a ++ [n]) ++ b)
      by (rewrite <- app_assoc; reflexivity).
    rewrite fold_left_app.
    set (s2 := fold_left addNamedListener (a ++ [n]) s0).
    destruct (addNames_emitter (a ++ [n]) s0) as (_ & K2). cbv zeta in K2.
    fold s2 in K2. cbn [closures s0 Nat.add] in K2.
    rewrite length_app in K2. cbn [List.length] in K2.
    destruct (@addNames_listeners (a ++ [n]) s0) as (ND2 & _);
      [constructor|]. cbv zeta in ND2. fold s2 in ND2.
    destruct (@addNames_listeners b s2 ND2) as (_ & IN3). cbv zeta in IN3.
    intros I. destruct (IN3 _ _ I) as [(_ & NI)|(id & E & B)].
    - contradiction.
    - injection E as E. lia. }
  assert (HD : doneListener s1 <> Some (snd h)).
  { intros E. destruct (DS _ E) as (id & d & E' & B).
    unfold h, names in *. cbn [snd] in E'. injection E' as E' _.
    rewrite length_app in B. cbn [List.length] in B. lia. }
  assert (HR : errorListener s1 <> Some (snd h)).
  { intros E. destruct (ES _ E) as (id & d & E' & B).
    unfold h, names in *. cbn [snd] in E'. injection E' as E' _.
    rewrite length_app in B. cbn [List.length] in B. lia. }
  (* notifications and pulls leave the handlers as they are *)
  rewrite C0.
  destruct (@rendezvous_keeps_handlers acts
              (set_listenersAdded true s1)) as (L & A & LP).
  { unfold s1. destruct (addEventListeners_frame s0) as (R & _). parts R.
    fields. assumption. }
  { reflexivity. }
  cbv zeta in L, A, LP.
  set (s := fst (run (map toCall acts) (set_listenersAdded true s1))) in *.
  assert (KD : In h (eventEmitter (drain s))).
  { pose proof (drain_detaches s L) as LD. rewrite A in LD.
    parts LD. rewrite H. clear H H0 H1 H2 H3. parts LP.
    cbn [eventEmitter listeners doneListener errorListener
         set_listenersAdded] in *.
    apply removeEventListeners_keeps; congruence. }
  unfold return_, throw, promiseResolve, promiseReject.
  cbn [fst eventEmitter set_promises].
  split; [exact KD|]. split; [exact KD|].
  set (d := set_promises _ (drain s)).
  assert (QD : promiseQueue d = [] /\ eventEmitter d = eventEmitter (drain s)).
  { unfold d, drain. rewrite L. fields. auto. }
  destruct QD as (QD & ED).
  destruct (invoke_buffers event (handlersFor n (eventEmitter d)) d QD)
    as (_ & EQ & _).
  cbv zeta in EQ. unfold emit. rewrite EQ.
  apply in_or_app. right. apply in_map_iff. exists n.
  split; [reflexivity|].
  rewrite ED. apply (@bridgeNames_In n (List.length a)), KD.
Qed.

(** ** Adding the listeners now or at the first pull *)

Lemma addNamedListener_ext (n : string) (s s' : AsyncEventIterator) :
  listenerPart s = listenerPart s' ->
  listenerPart (addNamedListener s n) = listenerPart (addNamedListener s' n).
Proof.
  intros LP. parts LP.
  unfold addNamedListener, createListener, addListener, listenerPart. fields.
  rewrite H, H0, H1, H2, H3. reflexivity.
Qed.

Lemma addNames_ext (ns : list string) (s s' : AsyncEventIterator) :
  listenerPart s = listenerPart s' ->
  listenerPart (fold_left addNamedListener ns s) =
  listenerPart (fold_left addNamedListener ns s').
Proof.
  revert s s'; induction ns as [|n ns IH]; intros s s' LP; cbn [fold_left];
    [exact LP|].
  apply IH, addNamedListener_ext, LP.
Qed.

Lemma addEventListeners_ext (s s' : AsyncEventIterator) :
  listenerPart s = listenerPart s' -> eventNames s = eventNames s' ->
  doneEventName (options s) = doneEventName (options s') ->
  errorEventName (options s) = errorEventName (options s') ->
  listenerPart (addEventListeners s) = listenerPart (addEventListeners s').
Proof.
  intros LP N D E. unfold addEventListeners. rewrite <- N.
  pose proof (addNames_ext (eventNames s) LP) as LP1.
  destruct (addNames_frame (eventNames s) s) as (_ & C & _).
  destruct (addNames_frame (eventNames s) s') as (_ & C' & _).
  cbv zeta in C, C'. parts C. parts C'.
  set (s1 := fold_left _ (eventNames s) s) in *.
  set (s1' := fold_left _ (eventNames s) s') in *.
  rewrite H0, H2, <- D. parts LP1.
  destruct (truthy (doneEventName (options s))) as [d|];
    unfold addListener, createListener; fields; rewrite ?H0, ?H2, <- ?E;
    (destruct (truthy (errorEventName (options s))) as [e|]);
    unfold listenerPart; fields;
    rewrite ?H3, ?H4, ?H5, ?H6, ?H7; reflexivity.
Qed.

(** X14.  [listenNow] decides when the listeners are added, not which.  For
    two iterators constructed alike except that one has [listenNow] true and
    the other has not, the states after the first [next()] have the same
    handlers on the emitter, the same handles, the same queues, promises and
    flags, and the two calls return the same promise. *)
Theorem listenNow_only_moves_the_attach (em0 : list (string * Listener))
    (names : list string) (o o' : AsyncEventIteratorOptions) :
  doneEventName o = doneEventName o' ->
  errorEventName o = errorEventName o' ->
  listenNow o = Some true -> listenNow o' <> Some true ->
  let eager := next (constructor em0 names (Some o)) in
  let lazy := next (constructor em0 names (Some o')) in
  listenerPart (fst eager) = listenerPart (fst lazy) /\
  rendezvousPart (fst eager) = rendezvousPart (fst lazy) /\
  snd eager = snd lazy /\
  listenerPart (fst eager) = listenerPart (constructor em0 names (Some o)).
Proof.
  intros D E LN LN'. cbv zeta.
  set (s0 := mkIterator em0 names o [] [] true false [] None None [] 0
             : AsyncEventIterator).
  set (s0' := mkIterator em0 names o' [] [] true false [] None None [] 0
              : AsyncEventIterator).
  assert (CE : constructor em0 names (Some o) =
               set_listenersAdded true (addEventListeners s0)).
  { unfold constructor. rewrite LN. reflexivity. }
  assert (CL : constructor em0 names (Some o') = s0').
  { unfold constructor.
    destruct (listenNow o') as [[|]|]; try reflexivity.
    contradiction LN'. reflexivity. }
  rewrite CE, CL.
  pose proof (@addEventListeners_ext s0 s0' eq_refl eq_refl D E) as LP.
  destruct (addEventListeners_frame s0) as (R & _).
  destruct (addEventListeners_frame s0') as (R' & _).
  parts R. parts R'.
  assert (NE : next (set_listenersAdded true (addEventListeners s0)) =
               pullEvent (set_listenersAdded true (addEventListeners s0))).
  { unfold next. fields. rewrite H2. reflexivity. }
  assert (NL : next s0' =
               pullEvent (set_listenersAdded true (addEventListeners s0')))
    by reflexivity.
  rewrite NE, NL.
  set (a := set_listenersAdded true (addEventListeners s0)) in *.
  set (a' := set_listenersAdded true (addEventListeners s0')) in *.
  assert (QA : eventQueue a = [] /\ promiseQueue a = [] /\ promises a = [])
    by (unfold a; fields; auto).
  assert (QA' : eventQueue a' = [] /\ promiseQueue a' = [] /\ promises a' = [])
    by (unfold a'; fields; auto).
  destruct QA as (Q1 & Q2 & Q3). destruct QA' as (Q1' & Q2' & Q3').
  destruct (pullEvent_frame a) as (LPa & _ & La & Aa).
  destruct (pullEvent_frame a') as (LPa' & _ & La' & Aa').
  assert (PA : forall x : AsyncEventIterator,
    eventQueue x = [] ->
    pullEvent x =
    (set_promiseQueue (promiseQueue x ++ [List.length (promises x)])
       (set_promises (promises x ++ [Pending]) x),
     List.length (promises x))).
  { intros x Q. unfold pullEvent, newPromise. fields. rewrite Q.
    reflexivity. }
  split; [|split; [|split]].
  - rewrite LPa, LPa'. unfold a, a', listenerPart. fields.
    parts LP. congruence.
  - rewrite (PA a Q1), (PA a' Q1'). unfold rendezvousPart. fields.
    rewrite Q1, Q2, Q3, Q1', Q2', Q3'. unfold a, a'. fields.
    rewrite H2, H7. reflexivity.
  - rewrite (PA a Q1), (PA a' Q1'). cbn [snd]. rewrite Q3, Q3'. reflexivity.
  - exact LPa.
Qed.

End Iterator.

(** * Scenarios

    Payloads are strings and a rejection reason is an optional string, so the
    upcast is the identity. *)

Arguments constructor {T unknown} emitter names opts.
Arguments Publish {T unknown} event eventName.
Arguments Emit {T unknown} eventName event.
Arguments Next {T unknown}.
Arguments Return {T unknown}.
Arguments Throw {T unknown} error.
Arguments Notify {T} event eventName.
Arguments Request {T}.
Arguments Pending {T unknown}.
Arguments Fulfilled {T unknown} r.
Arguments Rejected {T unknown} err.

(** C1 at work: a notification meeting a waiting pull, and a pull meeting a
    buffered entry. *)
Lemma queues_never_both_nonempty_witness :
  let waiting : AsyncEventIterator string (option string) :=
    fst (next (@id (option string)) (constructor [] ["chunk"] None)) in
  let buffered : AsyncEventIterator string (option string) :=
    pushEvent (@id (option string)) "1" "chunk" (constructor [] ["chunk"] None) in
  promiseQueue waiting = [0] /\
  promiseQueue (pushEvent (@id (option string)) "1" "chunk" waiting) = [] /\
  eventQueue (pushEvent (@id (option string)) "1" "chunk" waiting) = [] /\
  eventQueue buffered = [mkEntry "chunk" (Some "1")] /\
  eventQueue (fst (pullEvent (@id (option string)) buffered)) = [] /\
  promiseQueue (fst (pullEvent (@id (option string)) buffered)) = [].
Proof.
  cbv zeta.
  destruct (@queues_never_both_nonempty string (option string)
              (@id (option string)) [] ["chunk"] None []) as (_ & H1 & H2).
  split; [reflexivity|].
  destruct (H1 (fst (next (@id (option string)) (constructor [] ["chunk"] None)))
              "1" "chunk" 0 [] eq_refl) as (A1 & A2 & _).
  split; [exact A1|]. split; [exact A2|].
  split; [reflexivity|].
  destruct (H2 (pushEvent (@id (option string)) "1" "chunk"
                  (constructor [] ["chunk"] None))
              (mkEntry "chunk" (Some "1")) [] eq_refl) as (B1 & B2 & _).
  split; [exact B1|exact B2].
Defined.





(** The same through the emitter, for listeners added at construction; and
    with the default, lazy listeners, where what the emitter fired before the
    first pull is not seen. *)
Example error_after_entry_through_emitter :
  let eager :=
    run (@id (option string))
      [Emit "chunk" "1"; Emit "error" "boom"; Next; Next]
      (constructor [] ["chunk"]
         (Some (mkOptions (Some "done") (Some "error") (Some true)))) in
  let lazy :=
    run (@id (option string))
      [Emit "chunk" "1"; Emit "error" "boom"; Next; Next]
      (constructor [] ["chunk"] None) in
  map (promiseState (fst eager)) (snd eager) =
    [Some (Fulfilled (mkResult (Some (mkEntry "chunk" (Some "1"))) false));
     Some (Rejected (Some "boom"))] /\
  map (promiseState (fst lazy)) (snd lazy) = [Some Pending; Some Pending].
Proof.
  vm_compute. split; reflexivity.
Qed.



(** C7 on an iterator stopped after one pull: a second stop, then a pull. *)
Lemma drained_is_final_witness :
  let s :=
    fst (run (@id (option string)) [Next; Return]
           (constructor [] ["chunk"] None)) in
  listening s = false /\
  next (@id (option string)) s = return_ s /\
  promiseState (fst (next (@id (option string)) s))
    (snd (next (@id (option string)) s)) =
    Some (Fulfilled (mkResult (Some (mkEntry "done" None)) true)) /\
  eventEmitter (fst (run (@id (option string)) [Return; Next] s)) =
    eventEmitter s.
Proof.
  cbv zeta.
  set (s := fst (run (@id (option string)) [Next; Return]
                   (constructor [] ["chunk"] None))).
  assert (D : listening s = false) by reflexivity.
  split; [exact D|].
  destruct (@drained_is_final string (option string) (@id (option string))
              s None [Return; Next] D)
    as (_ & _ & _ & H4 & H5 & _ & _ & H8 & _).
  split; [exact H4|]. split; [exact H5|].
  exact (f_equal (fun lp => fst (fst (fst (fst lp)))) H8).
Defined.

(** C8, counterexample.  An options object that only sets [listenNow]: the
    done and error names are not set, not ["done"] and ["error"], and only the
    handler of ["chunk"] is registered. *)
Lemma options_object_gets_no_defaults :
  let s : AsyncEventIterator string (option string) :=
    constructor [] ["chunk"] (Some (mkOptions None None (Some true))) in
  doneEventName (options s) = None /\
  errorEventName (options s) = None /\
  doneEventName (options s) <> Some "done" /\
  errorEventName (options s) <> Some "error" /\
  eventEmitter s = [("chunk", Bridge 0 "chunk")].
Proof.
  cbn. repeat split; discriminate.
Qed.

(** C8, the amended statement at work: with no names set, notifications on
    ["done"] and ["error"] are ordinary entries. *)
Lemma options_default_only_when_absent_witness :
  let o := mkOptions None None (Some true) in
  let s :=
    fst (run (@id (option string))
           (map (@toCall string (option string))
              [Notify "x" "done"; Notify "y" "error"; Request; Request])
           (constructor [] ["done"; "error"] (Some o))) in
  options s = o /\
  Forall (fun st => forall r, st = Fulfilled r -> done r = false) (promises s) /\
  Forall (fun st => forall err, st <> Rejected err) (promises s) /\
  listening s = true.
Proof.
  cbv zeta.
  destruct (@options_default_only_when_absent string (option string)
              (@id (option string)) [] ["done"; "error"]) as (_ & _ & H & _).
  destruct (H (Some (mkOptions None None (Some true)))
              [Notify "x" "done"; Notify "y" "error"; Request; Request])
    as (H1 & H2 & H3).
  split; [reflexivity|].
  split; [apply H1; reflexivity|]. split; [apply H2; reflexivity|exact H3].
Defined.



(** C10 on an iterator that has buffered an error and then an entry: the
    first pull is rejected with ["boom"], the second is fulfilled with the
    entry, and the iterator listens as before. *)
Lemma upstream_error_does_not_drain_witness :
  let s :=
    fst (run (@id (option string)) [Emit "error" "boom"; Emit "chunk" "1"]
           (constructor [] ["chunk"]
              (Some (mkOptions (Some "done") (Some "error") (Some true))))) in
  let r := run (@id (option string)) (repeat Next 2) s in
  listening s = true /\ listenersAdded s = true /\
  map (promiseState (fst r)) (snd r) =
    [Some (Rejected (Some "boom"));
     Some (Fulfilled (mkResult (Some (mkEntry "chunk" (Some "1"))) false))] /\
  listening (fst r) = true /\
  listenerPart (fst r) = listenerPart s.
Proof.
  cbv zeta.
  set (s := fst (run (@id (option string))
                   [Emit "error" "boom"; Emit "chunk" "1"]
                   (constructor [] ["chunk"]
                      (Some (mkOptions (Some "done") (Some "error")
                               (Some true)))))).
  assert (L : listening s = true) by reflexivity.
  assert (A : listenersAdded s = true) by reflexivity.
  destruct (@upstream_error_does_not_drain string (option string)
              (@id (option string)) s L A) as (H & _).
  destruct (H (mkEntry "error" (Some "boom")) [mkEntry "chunk" (Some "1")]
              eq_refl eq_refl) as (_ & _ & _ & H4 & H5).
  split; [exact L|]. split; [exact A|]. split; [reflexivity|].
  split; [exact H4|exact H5].
Defined.


(** * Scenarios for the further properties *)

(** X1 at work: default options, another party's handler on ["chunk"]; two
    firings before any pull leave the iterator as constructed. *)
Lemma lazy_construction_observes_nothing_witness :
  let s0 : AsyncEventIterator string (option string) :=
    constructor [("chunk", Foreign 7)] ["chunk"] None in
  run (@id (option string)) (emitAll _ [("chunk", "1"); ("done", "x")]) s0 =
    (s0, []) /\
  eventEmitter s0 = [("chunk", Foreign 7)].
Proof.
  cbv zeta.
  destruct (@lazy_construction_observes_nothing string (option string)
              (@id (option string)) [("chunk", Foreign 7)] ["chunk"] None
              [("chunk", "1"); ("done", "x")])
    as (E & _ & _ & R); [discriminate|reflexivity|].
  split; [exact R|exact E].
Defined.


(** X3 at work: a stop before the first pull, then pulls; the names repeat. *)
Lemma stop_before_attach_leaves_emitter_witness :
  let s : AsyncEventIterator string (option string) :=
    constructor [("a", Foreign 1)] ["a"; "a"] None in
  listenersAdded s = false /\
  eventEmitter
    (fst (run (@id (option string)) [Next; Emit "a" "x"; Next]
            (fst (return_ s)))) = [("a", Foreign 1)].
Proof.
  cbv zeta. split; [reflexivity|].
  destruct (@stop_before_attach_leaves_emitter string (option string)
              (@id (option string))
              (constructor [("a", Foreign 1)] ["a"; "a"] None) None
              [Next; Emit "a" "x"; Next] eq_refl) as (LP & _).
  exact (f_equal (fun lp => fst (fst (fst (fst lp)))) LP).
Defined.

(** X4 at work on a freshly constructed iterator. *)
Lemma removeEventListeners_without_handles_witness :
  let s : AsyncEventIterator string (option string) :=
    constructor [("a", Foreign 1)] ["a"] None in
  removeEventListeners s = s.
Proof.
  cbv zeta.
  apply (@removeEventListeners_without_handles string (option string)).
  repeat split.
Defined.


(** X7 at work: two pulls, one notification, then a stop. *)
Lemma pending_pulls_are_queued_witness :
  let s : AsyncEventIterator string (option string) :=
    fst (run (@id (option string)) [Next; Next; Publish "1" "chunk"; Return]
           (constructor [] ["chunk"] None)) in
  listening s = false /\ forall p, promiseState s p <> Some Pending.
Proof.
  cbv zeta. split; [reflexivity|].
  destruct (@pending_pulls_are_queued string (option string)
              (@id (option string)) [] ["chunk"] None
              [Next; Next; Publish "1" "chunk"; Return]) as (_ & _ & H).
  apply H. reflexivity.
Defined.


(** X10 at work: after the first pull the count stays at 3 whatever follows. *)
Lemma listeners_added_at_most_once_witness :
  let s : AsyncEventIterator string (option string) :=
    fst (run (@id (option string)) [Next] (constructor [] ["chunk"] None)) in
  listenersAdded s = true /\
  closures s = 3 /\
  closures (fst (run (@id (option string)) [Next; Return; Next] s)) = 3.
Proof.
  cbv zeta. split; [reflexivity|].
  destruct (@listeners_added_at_most_once string (option string)
              (@id (option string)) [] ["chunk"] None [Next]) as (K & _ & M).
  split; [exact K|].
  destruct (M [Next; Return; Next] eq_refl) as (_ & K').
  rewrite K'. exact K.
Defined.


(** X13 at work: the names ["a"; "b"; "a"]. *)
Lemma repeated_name_leaves_a_handler_witness :
  let o := Some (mkOptions (Some "done") (Some "error") (Some true)) in
  let s :=
    fst (run (@id (option string))
           (map (@toCall string (option string)) [Request; Notify "1" "a"])
           (constructor [] ["a"; "b"; "a"] o)) in
  In "a" ["b"; "a"] /\
  In ("a", Bridge 0 "a") (eventEmitter (fst (return_ s))) /\
  In (mkEntry "a" (Some "2"))
    (eventQueue (emit (@id (option string)) "a" "2" (fst (return_ s)))).
Proof.
  cbv zeta.
  assert (I : In "a" ["b"; "a"]) by (right; left; reflexivity).
  split; [exact I|].
  destruct (@repeated_name_leaves_a_handler string (option string)
              (@id (option string)) []
              (Some (mkOptions (Some "done") (Some "error") (Some true)))
              [] ["b"; "a"] "a" [Request; Notify "1" "a"] None "2" eq_refl I)
    as (H1 & _ & H3).
  split; [exact H1|exact H3].
Defined.

(** X14 at work: the default names with and without [listenNow]. *)
Lemma listenNow_only_moves_the_attach_witness :
  let o := mkOptions (Some "done") (Some "error") (Some true) in
  let o' := mkOptions (Some "done") (Some "error") None in
  let eager : AsyncEventIterator string (option string) * nat :=
    next (@id (option string)) (constructor [] ["chunk"] (Some o)) in
  let lazy := next (@id (option string)) (constructor [] ["chunk"] (Some o')) in
  eventEmitter (fst eager) = eventEmitter (fst lazy) /\
  snd eager = snd lazy.
Proof.
  cbv zeta.
  destruct (@listenNow_only_moves_the_attach string (option string)
              (@id (option string)) [] ["chunk"]
              (mkOptions (Some "done") (Some "error") (Some true))
              (mkOptions (Some "done") (Some "error") None)
              eq_refl eq_refl eq_refl) as (LP & _ & P & _); [discriminate|].
  split; [|exact P].
  exact (f_equal (fun lp => fst (fst (fst (fst lp)))) LP).
Defined.
